(** * Verification of the sudoku engine (validator, solver, uniqueness
      oracle, generator) of [sudoku_solve.py] / [sudoku.py].

    The two source files carry the same engine; the model below follows
    [sudoku_solve.py] and notes the places where [sudoku.py] is worded
    differently (it never differs in behaviour). *)

From Stdlib Require Import ZArith NArith Lia ZifyNat.
From stdpp Require Import base tactics option list strings.

Local Open Scope Z_scope.

(** ** Python exceptions and results *)

Inductive exn : Type :=
  | IndexError       (* subscript out of range *)
  | TypeError        (* arithmetic on [None] *)
  | ValueError       (* [randrange] on an empty range, shape mismatch *)
  | AttributeError.  (* method call on [None] *)

(** Result of a computation that touches no object state. *)
Inductive result (A : Type) : Type :=
  | Ok (a : A)
  | Err (e : exn).
Arguments Ok {A} a.
Arguments Err {A} e.

#[global] Instance result_ret : MRet result := λ A a, Ok a.
#[global] Instance result_bind : MBind result := λ A B f r,
  match r with Ok a => f a | Err e => Err e end.

(** ** Grids

    A board is a two-dimensional numpy array of integers: a list of
    rows.  Reading or writing outside the array raises [IndexError]
    (indices are never negative in this program: they come from [range],
    [ndenumerate] and [nonzero]). *)

Abbreviation Grid := (list (list Z)).

Definition get_cell (board : Grid) (y x : nat) : result Z :=
  match board !! y with
  | None => Err IndexError
  | Some row =>
      match row !! x with
      | None => Err IndexError
      | Some n => Ok n
      end
  end.

Definition set_cell (board : Grid) (y x : nat) (v : Z) : result Grid :=
  match board !! y with
  | None => Err IndexError
  | Some row =>
      if decide (x < length row)%nat
      then Ok (<[y := <[x := v]> row]> board)
      else Err IndexError
  end.

(** [np.ndenumerate]: the cells with their coordinates, row-major. *)
Fixpoint enum_row (y x : nat) (row : list Z) : list ((nat * nat) * Z) :=
  match row with
  | [] => []
  | n :: row' => ((y, x), n) :: enum_row y (S x) row'
  end.

Fixpoint enum_from (y : nat) (board : Grid) : list ((nat * nat) * Z) :=
  match board with
  | [] => []
  | row :: board' => enum_row y 0 row ++ enum_from (S y) board'
  end.

Definition ndenumerate (board : Grid) : list ((nat * nat) * Z) :=
  enum_from 0 board.

(** [np.count_nonzero]. *)
Definition count_nonzero (board : Grid) : nat :=
  sum_list ((λ row : list Z, length (filter (λ n, n ≠ 0) row)) <$> board).

(** [np.nonzero] followed by the transposition and [tolist]: the
    coordinates of the non-zero cells, row-major. *)
Definition nonzero_coords (board : Grid) : list (nat * nat) :=
  fst <$> filter (λ c : (nat * nat) * Z, c.2 ≠ 0) (ndenumerate board).

(** [np.zeros((9, 9), int)]. *)
Definition zeros99 : Grid := replicate 9 (replicate 9 0).

(** Number of cells; used as the recursion allowance of the solver. *)
Definition cells (board : Grid) : nat := sum_list (length <$> board).

(** ** The validator *)

(** A [for] loop whose body may [return]: [Some r] is an early return. *)
Fixpoint for_return {A R : Type} (body : A → result (option R))
    (l : list A) : result (option R) :=
  match l with
  | [] => Ok None
  | a :: l' =>
      r ← body a;
      match r with
      | Some v => Ok (Some v)
      | None => for_return body l'
      end
  end.

Definition can_place (y x : nat) (value : Z) (board : Grid) : result bool :=
  r ← for_return (λ i : nat,
        a ← get_cell board y i;
        if decide (a = value) then Ok (Some false) else
        b ← get_cell board i x;
        if decide (b = value) then Ok (Some false) else
        Ok None) (seq 0 9);
  match r with
  | Some b => Ok b
  | None =>
      let square_x := (x / 3 * 3)%nat in
      let square_y := (y / 3 * 3)%nat in
      r ← for_return (λ i : nat,
            for_return (λ j : nat,
              c ← get_cell board (square_y + j) (square_x + i);
              if decide (c = value) then Ok (Some false) else Ok None)
            (seq 0 3)) (seq 0 3);
      match r with
      | Some b => Ok b
      | None => Ok true
      end
  end.

(** ** Program state

    [rng] is the random source: an arbitrary stream of raw draws and the
    position of the next one.  [solution] is [Solver.solution], [clues]
    is [Generator.clues], [puzzle] is [Application.puzzle].
    [solve_calls] is a ghost counter of [init_solve] invocations; no
    operation reads it. *)

Record Rng : Type := { stream : N → N; pos : N }.

Record World : Type := {
  rng : Rng;
  solution : option Grid;
  clues : Z;
  puzzle : option Grid;
  solve_calls : nat
}.

Definition with_rng (r : Rng) (w : World) : World :=
  {| rng := r; solution := solution w; clues := clues w;
     puzzle := puzzle w; solve_calls := solve_calls w |}.
Definition with_solution (s : option Grid) (w : World) : World :=
  {| rng := rng w; solution := s; clues := clues w;
     puzzle := puzzle w; solve_calls := solve_calls w |}.
Definition with_clues (c : Z) (w : World) : World :=
  {| rng := rng w; solution := solution w; clues := c;
     puzzle := puzzle w; solve_calls := solve_calls w |}.
Definition with_puzzle (p : option Grid) (w : World) : World :=
  {| rng := rng w; solution := solution w; clues := clues w;
     puzzle := p; solve_calls := solve_calls w |}.
Definition count_call (w : World) : World :=
  {| rng := rng w; solution := solution w; clues := clues w;
     puzzle := puzzle w; solve_calls := S (solve_calls w) |}.

(** The state of a freshly constructed application: [Solver.__init__]
    and [Generator.__init__], [Application.__init__]. *)
Definition fresh (r : Rng) : World :=
  {| rng := r; solution := None; clues := 0;
     puzzle := Some zeros99; solve_calls := 0 |}.

(** Outcome of a method call: normal return, an exception (the state
    reached when it was raised is kept), or the recursion allowance of
    the model exhausted. *)
Inductive outcome (A : Type) : Type :=
  | Done (a : A) (w : World)
  | Raised (e : exn) (w : World)
  | OutOfFuel.
Arguments Done {A} a w.
Arguments Raised {A} e w.
Arguments OutOfFuel {A}.

Definition M (A : Type) : Type := World → outcome A.

#[global] Instance M_ret : MRet M := λ A a w, Done a w.
#[global] Instance M_bind : MBind M := λ A B f m w,
  match m w with
  | Done a w' => f a w'
  | Raised e w' => Raised e w'
  | OutOfFuel => OutOfFuel
  end.

Definition lift {A : Type} (r : result A) : M A := λ w,
  match r with Ok a => Done a w | Err e => Raised e w end.
Definition raise {A : Type} (e : exn) : M A := λ w, Raised e w.
Definition out_of_fuel {A : Type} : M A := λ _, OutOfFuel.
Definition gets {A : Type} (f : World → A) : M A := λ w, Done (f w) w.
Definition modify (f : World → World) : M unit := λ w, Done () (f w).

(** ** The random source *)

Definition next_rng (r : Rng) : Rng :=
  {| stream := stream r; pos := N.succ (pos r) |}.

(** [random.randrange(n)]. *)
Definition randrange (n : nat) : M nat := λ w,
  if decide (n = 0%nat) then Raised ValueError w
  else Done (N.to_nat (stream (rng w) (pos (rng w)) `mod` N.of_nat n)%N)
            (with_rng (next_rng (rng w)) w).

(** [random.randint(a, b)], both ends included. *)
Definition randint (a b : Z) : M Z :=
  k ← randrange (Z.to_nat (b - a + 1));
  mret (a + Z.of_nat k).

(** [l.pop(i)]. *)
Definition list_pop {A : Type} (l : list A) (i : nat) : result (A * list A) :=
  match l !! i with
  | Some a => Ok (a, delete i l)
  | None => Err IndexError
  end.

(** ** The solver *)

Fixpoint find_zero (cs : list ((nat * nat) * Z)) : option (nat * nat) :=
  match cs with
  | [] => None
  | (c, n) :: cs' => if decide (n = 0) then Some c else find_zero cs'
  end.

(** The [while numbers:] loop of [solve] for the cell [(y, x)].  [rec]
    is the recursive call; [k] bounds the iterations (each one pops an
    element of [numbers]). *)
Fixpoint try_numbers (rec : Grid → M unit) (k : nat) (y x : nat)
    (numbers : list Z) (sudoku : Grid) : M unit :=
  match numbers with
  | [] => mret ()
  | _ :: _ =>
      match k with
      | O => out_of_fuel
      | S k' =>
          i ← randrange (length numbers);
          '(num, numbers) ← lift (list_pop numbers i);
          sol ← gets solution;
          match sol with
          | None =>
              ok ← lift (can_place y x num sudoku);
              if ok : bool then
                sudoku ← lift (set_cell sudoku y x num);
                rec sudoku;;
                try_numbers rec k' y x numbers sudoku
              else try_numbers rec k' y x numbers sudoku
          | Some _ => mret ()
          end
      end
  end.

(** [Solver.solve].  [depth] is the number of further nested recursive
    calls allowed: the call itself costs nothing, each recursive call
    one unit. *)
Fixpoint solve (depth : nat) (board : Grid) : M unit :=
  let sudoku := board in
  match find_zero (ndenumerate sudoku) with
  | Some (y, x) =>
      try_numbers
        (λ s, match depth with O => out_of_fuel | S d => solve d s end)
        9 y x (Z.of_nat <$> seq 1 9) sudoku
  | None => modify (with_solution (Some sudoku))
  end.

(** [MainCanvas.draw_puzzle], as far as it can fail: the subtraction
    [current_board - previous_board].  The drawing itself is not
    modelled. *)
Definition draw_puzzle (current_board previous_board : option Grid) : M unit :=
  let current_board :=
    match current_board with None => previous_board | Some _ => current_board end in
  match current_board, previous_board with
  | Some _, Some _ => mret ()
  | _, _ => raise TypeError
  end.

(** [Solver.init_solve].  The recursion allowance handed to [solve] is
    the number of cells of the board. *)
Definition init_solve (board : Grid) (drawing : bool) : M unit :=
  modify count_call;;
  modify (with_solution None);;
  solve (cells board) board;;
  if drawing then
    s ← gets solution; p ← gets puzzle; draw_puzzle s p
  else mret ().

(** ** The uniqueness oracle *)

(** Subtraction of [int64] cells wraps around. *)
Definition wrap64 (z : Z) : Z := (z + 2 ^ 63) `mod` 2 ^ 64 - 2 ^ 63.

(** [a - b] on two boards.  [None - _] is a [TypeError].  Both operands
    are solutions of one board here, so their shapes agree; numpy's
    broadcasting of unequal shapes is not modelled beyond an error. *)
Definition np_sub (a b : option Grid) : result Grid :=
  match a, b with
  | Some a, Some b =>
      if decide (length <$> a = length <$> b)
      then Ok (zip_with (zip_with (λ u v, wrap64 (u - v))) a b)
      else Err ValueError
  | _, _ => Err TypeError
  end.

(** [np.any]. *)
Definition np_any (d : Grid) : bool :=
  existsb (existsb (λ n, negb (n =? 0))) d.

(** The [for i in range(depth):] loop of [unique]. *)
Fixpoint unique_loop (n : nat) (board : Grid)
    (first_solution : option Grid) : M bool :=
  match n with
  | O => mret true
  | S n' =>
      init_solve board false;;
      s ← gets solution;
      d ← lift (np_sub s first_solution);
      if np_any d then mret false
      else unique_loop n' board first_solution
  end.

(** [Solver.unique]. *)
Definition unique (board : Grid) (depth : nat) : M bool :=
  init_solve board false;;
  first_solution ← gets solution;
  unique_loop depth board first_solution.

(** ** The generator *)

Definition generator_depth : nat * nat := (5, 12)%nat.

(** The inner loop
    [while (y, x) in excluded_nums and indices: y, x = indices.pop(...)]. *)
Fixpoint skip_excluded (k : nat) (c : nat * nat) (indices : list (nat * nat))
    (excluded_nums : list (nat * nat)) : M ((nat * nat) * list (nat * nat)) :=
  if bool_decide (c ∈ excluded_nums) && bool_decide (indices ≠ []) then
    match k with
    | O => out_of_fuel
    | S k' =>
        i ← randrange (length indices);
        '(c, indices) ← lift (list_pop indices i);
        skip_excluded k' c indices excluded_nums
    end
  else mret (c, indices).

(** The [while indices:] loop of [remove_numbers]; the result is the
    value the method returns ([None] also when the loop runs out and the
    method falls off its end).  [rec] is the recursive call. *)
Fixpoint while_indices (rec : Grid → list (nat * nat) → M (option Grid))
    (k : nat) (depth : nat) (indices : list (nat * nat)) (sudoku : Grid)
    (excluded_nums : list (nat * nat)) : M (option Grid) :=
  match indices with
  | [] => mret None
  | _ :: _ =>
      match k with
      | O => out_of_fuel
      | S k' =>
          i ← randrange (length indices);
          '(c, indices) ← lift (list_pop indices i);
          '(c, indices) ← skip_excluded (length indices) c indices excluded_nums;
          let '(y, x) := c in
          if bool_decide (indices ≠ []) then
            n ← lift (get_cell sudoku y x);
            sudoku ← lift (set_cell sudoku y x 0);
            u ← unique sudoku depth;
            next_layer ← (if u : bool then rec sudoku excluded_nums
                          else mret None);
            match next_layer with
            | Some g => mret (Some g)
            | None =>
                let excluded_nums := excluded_nums ++ [(y, x)] in
                cl ← gets clues;
                if decide (Z.of_nat (length excluded_nums) > cl)
                then mret None
                else
                  sudoku ← lift (set_cell sudoku y x n);
                  while_indices rec k' depth indices sudoku excluded_nums
            end
          else while_indices rec k' depth indices sudoku excluded_nums
      end
  end.

(** [Generator.remove_numbers].  [level] is the number of further nested
    recursive calls allowed.  ([sudoku.py] takes [excluded=None] for the
    empty list.) *)
Fixpoint remove_numbers (level : nat) (board : Grid)
    (excluded : list (nat * nat)) : M (option Grid) :=
  let sudoku := board in
  let excluded_nums := excluded in
  cl ← gets clues;
  if decide (Z.of_nat (count_nonzero sudoku) > cl) then
    cl ← gets clues;
    let depth :=
      if decide (Z.of_nat (count_nonzero sudoku) = cl + 1)
      then generator_depth.2 else generator_depth.1 in
    let indices := nonzero_coords sudoku in
    while_indices
      (λ s e, match level with
              | O => out_of_fuel
              | S l => remove_numbers l s e
              end)
      (length indices) depth indices sudoku excluded_nums
  else mret (Some sudoku).

(** The three [if difficulty == ...] statements of [generate]. *)
Definition choose_clues (difficulty : string) : M unit :=
  (if decide (difficulty = "easy")
   then c ← randint 40 50; modify (with_clues c) else mret ());;
  (if decide (difficulty = "medium")
   then c ← randint 32 40; modify (with_clues c) else mret ());;
  (if decide (difficulty = "hard")
   then c ← randint 25 32; modify (with_clues c) else mret ()).

(** What [generate] does after the clue target is settled. *)
Definition generate_board : M unit :=
  let board := zeros99 in
  init_solve board false;;
  board ← gets solution;
  board ← match board with
          | None => raise AttributeError   (* [None.copy()] *)
          | Some b => remove_numbers (count_nonzero b) b []
          end;
  modify (with_puzzle board);;
  draw_puzzle board board.

(** [Generator.generate]. *)
Definition generate (difficulty : string) : M unit :=
  choose_clues difficulty;;
  generate_board.

(** ** The window: buttons and keys

    The state of the application beside the engine: the selected cell of
    [MainCanvas] ([selected_position]: the empty list, or [[x; y]], column
    first) and whether a difficulty popup is open ([Application.popup]
    is not [None]).  The canvas items (lines, texts, the highlight
    rectangle) are tkinter's and are not modelled; [on_click], which
    turns pixel coordinates into a cell by floating-point division, is
    left out. *)

Record App : Type := {
  core : World;
  selected_position : list Z;
  popup : bool
}.

Definition with_core (w : World) (a : App) : App :=
  {| core := w; selected_position := selected_position a; popup := popup a |}.
Definition with_selected (sp : list Z) (a : App) : App :=
  {| core := core a; selected_position := sp; popup := popup a |}.
Definition with_popup (b : bool) (a : App) : App :=
  {| core := core a; selected_position := selected_position a; popup := b |}.

(** [Application.__init__]. *)
Definition fresh_app (r : Rng) : App :=
  {| core := fresh r; selected_position := []; popup := false |}.

Inductive ui_outcome : Type :=
  | UDone (a : App)
  | URaised (e : exn) (a : App)
  | UOutOfFuel.

(** A method of the engine called from the window. *)
Definition run_core (m : M unit) (a : App) : ui_outcome :=
  match m (core a) with
  | Done _ w => UDone (with_core w a)
  | Raised e w => URaised e (with_core w a)
  | OutOfFuel => UOutOfFuel
  end.

Definition ui_then (r : ui_outcome) (k : App → ui_outcome) : ui_outcome :=
  match r with
  | UDone a => k a
  | URaised e a => URaised e a
  | UOutOfFuel => UOutOfFuel
  end.

Definition ui_lift {A : Type} (r : result A) (a : App)
    (k : A → ui_outcome) : ui_outcome :=
  match r with Ok v => k v | Err e => URaised e a end.

(** A key event: its [keysym] and its [char] (no character, or one). *)
Record event : Type := { keysym : string; char : option Ascii.ascii }.

(** [int(event.char)]: a decimal digit gives its value, no character or
    any other character is a [ValueError]. *)
Definition py_int (c : option Ascii.ascii) : result Z :=
  match c with
  | Some c =>
      let n := Ascii.nat_of_ascii c in
      if decide (48 ≤ n ≤ 57)%nat then Ok (Z.of_nat n - 48) else Err ValueError
  | None => Err ValueError
  end.

(** [l[k]] on a Python list, [k >= 0]. *)
Definition list_item (l : list Z) (k : nat) : result Z :=
  match l !! k with Some v => Ok v | None => Err IndexError end.

(** An index into a numpy axis of length [len]: negative indices count
    from the end. *)
Definition np_index (len : nat) (i : Z) : result nat :=
  if decide (0 ≤ i < Z.of_nat len) then Ok (Z.to_nat i)
  else if decide (- Z.of_nat len ≤ i < 0) then Ok (Z.to_nat (Z.of_nat len + i))
  else Err IndexError.

(** [puzzle[r, c] = v]; on [None] a [TypeError]. *)
Definition puzzle_setitem (p : option Grid) (r c v : Z) : result Grid :=
  match p with
  | None => Err TypeError
  | Some board =>
      y ← np_index (length board) r;
      row ← match board !! y with
            | Some row => Ok row
            | None => Err IndexError
            end;
      x ← np_index (length row) c;
      set_cell board y x v
  end.

(** The redraw that follows a change of the selection or of a cell:
    [draw_selected] reads both coordinates, [draw_puzzle(puzzle, puzzle)]
    subtracts the puzzle from itself.  ([sudoku.py] makes the second
    call inside [draw_selected], [sudoku_solve.py] right after it.) *)
Definition redraw_puzzle (a : App) : ui_outcome :=
  run_core (p ← gets puzzle; draw_puzzle p p) a.

Definition draw_selected (a : App) : ui_outcome :=
  ui_lift (list_item (selected_position a) 0) a (λ _,
  ui_lift (list_item (selected_position a) 1) a (λ _,
  redraw_puzzle a)).

(** [SolveButton.pressed]. *)
Definition solve_pressed (a : App) : ui_outcome :=
  if popup a then UDone a
  else
    let a := with_selected [] a in
    match puzzle (core a) with
    | Some board => run_core (init_solve board true) a
    | None =>
        (* [init_solve(None, True)]: the reset, then [None.copy()] *)
        run_core (modify count_call;; modify (with_solution None);;
                  raise AttributeError) a
    end.

(** [ClearButton.pressed]. *)
Definition clear_pressed (a : App) : ui_outcome :=
  if popup a then UDone a
  else
    let a := with_core (with_puzzle (Some zeros99) (core a)) a in
    let a := with_selected [] a in
    redraw_puzzle a.

(** [Application.create_popup], called by [GenerateButton.pressed]. *)
Definition create_popup (a : App) : ui_outcome :=
  if popup a then UDone a
  else UDone (with_selected [] (with_popup true a)).

(** [PopUpWindow.on_delete]. *)
Definition on_delete (a : App) : App := with_popup false a.

(** The difficulties of the three buttons [PopUpWindow.__init__]
    creates. *)
Definition popup_buttons : list string := ["easy"; "medium"; "hard"].

(** [DifficultyButton.pressed]. *)
Definition difficulty_pressed (difficulty : string) (a : App) : ui_outcome :=
  run_core (generate difficulty) (on_delete a).

(** [MainCanvas.enter_value], bound to the keys 1..9 and BackSpace. *)
Definition enter_value (ev : event) (a : App) : ui_outcome :=
  match selected_position a with
  | [] => UDone a
  | _ :: _ =>
      ui_lift (if decide (keysym ev = "BackSpace") then Ok 0
               else py_int (char ev)) a (λ v,
      ui_lift (list_item (selected_position a) 1) a (λ r,
      ui_lift (list_item (selected_position a) 0) a (λ c,
      ui_lift (puzzle_setitem (puzzle (core a)) r c v) a (λ board,
      redraw_puzzle (with_core (with_puzzle (Some board) (core a)) a)))))
  end.

(** One of the four tests of [key_press] on an arrow key:
    [if keysym == key and sp[i] <cond>: sp[i] += delta]. *)
Definition move_selection (ev : event) (key : string) (i : nat)
    (cond : Z → bool) (delta : Z) (a : App) : ui_outcome :=
  if decide (keysym ev = key) then
    ui_lift (list_item (selected_position a) i) a (λ v,
      if cond v
      then UDone (with_selected (<[i := v + delta]> (selected_position a)) a)
      else UDone a)
  else UDone a.

(** [MainCanvas.key_press], bound to every other key. *)
Definition key_press (ev : event) (a : App) : ui_outcome :=
  ui_then (if decide (keysym ev = "Return") then solve_pressed a else UDone a)
  (λ a,
    if decide (keysym ev = "Delete") then clear_pressed a
    else
      match selected_position a with
      | [] => UDone a
      | _ :: _ =>
          ui_then (move_selection ev "Left" 0 (λ v, bool_decide (v > 0)) (-1) a) (λ a,
          ui_then (move_selection ev "Right" 0 (λ v, bool_decide (v < 8)) 1 a) (λ a,
          ui_then (move_selection ev "Up" 1 (λ v, bool_decide (v > 0)) (-1) a) (λ a,
          ui_then (move_selection ev "Down" 1 (λ v, bool_decide (v < 8)) 1 a)
          draw_selected)))
      end).

(** * Specification vocabulary *)

(** A 9x9 board. *)
Definition grid9 (board : Grid) : Prop :=
  length board = 9%nat ∧ Forall (λ row, length row = 9%nat) board.

(** [value] occurs in row [y], in column [x], in the 3x3 box whose
    top-left corner is [(y / 3 * 3, x / 3 * 3)]. *)
Definition in_row (board : Grid) (y : nat) (value : Z) : Prop :=
  ∃ i, (i < 9)%nat ∧ get_cell board y i = Ok value.
Definition in_col (board : Grid) (x : nat) (value : Z) : Prop :=
  ∃ i, (i < 9)%nat ∧ get_cell board i x = Ok value.
Definition in_box (board : Grid) (y x : nat) (value : Z) : Prop :=
  ∃ i j, (i < 3)%nat ∧ (j < 3)%nat ∧
         get_cell board (y / 3 * 3 + j) (x / 3 * 3 + i) = Ok value.

(** Two cells share a row, a column or a 3x3 box. *)
Definition same_unit (y x y' x' : nat) : Prop :=
  y = y' ∨ x = x' ∨ (y / 3 = y' / 3 ∧ x / 3 = x' / 3)%nat.

(** The validity invariant: no non-zero value is repeated in a row, a
    column or a box. *)
Definition valid (board : Grid) : Prop :=
  ∀ y x y' x' v,
    get_cell board y x = Ok v → get_cell board y' x' = Ok v → v ≠ 0 →
    same_unit y x y' x' → y = y' ∧ x = x'.

(** Every cell holds a value in 0..9. *)
Definition in_range (board : Grid) : Prop :=
  ∀ y x v, get_cell board y x = Ok v → 0 ≤ v ≤ 9.

(** No cell is empty. *)
Definition full (board : Grid) : Prop :=
  ∀ y x v, get_cell board y x = Ok v → v ≠ 0.

(** [g] keeps every non-zero cell of [board]. *)
Definition extends (board g : Grid) : Prop :=
  ∀ y x v, get_cell board y x = Ok v → v ≠ 0 → get_cell g y x = Ok v.

(** [g] is a valid completion of [board]: a 9x9 board fully populated
    with values 1..9, valid, that keeps the givens of [board]. *)
Definition completion (board g : Grid) : Prop :=
  grid9 g ∧ in_range g ∧ full g ∧ valid g ∧ extends board g.

(** A board is solvable when it has a valid completion. *)
Definition solvable (board : Grid) : Prop := ∃ c, completion board c.

(** Number of empty cells. *)
Definition count_zero (board : Grid) : nat :=
  sum_list ((λ row : list Z, length (filter (λ n, n = 0) row)) <$> board).

(** [g] is what the search can make of [board]: a 9x9 board without
    empty cells that keeps the givens of [board], and that is valid, with
    cells in 0..9, when [board] is. *)
Definition filled_from (board g : Grid) : Prop :=
  grid9 g ∧ full g ∧ extends board g ∧
  (valid board → valid g) ∧ (in_range board → in_range g).

(** What a call of [solve] on [board] guarantees when it starts with no
    solution recorded: a recorded solution is filled from [board], and
    one is recorded whenever a valid completion exists. *)
Definition solve_post (board : Grid) (w w' : World) : Prop :=
  solution w = None →
  (∀ g, solution w' = Some g → filled_from board g) ∧
  (solvable board → is_Some (solution w')).

(** Number of cells of a row that satisfy [P], and the contribution of
    one cell to it. *)
Definition count_row (P : Z → Prop) `{!∀ n, Decision (P n)}
    (row : list Z) : nat := length (filter P row).
Definition weight (P : Z → Prop) `{!∀ n, Decision (P n)} (n : Z) : nat :=
  if decide (P n) then 1%nat else 0%nat.

(** [m] relates the state it starts in to the state it ends in (by
    return or by exception) by [R]. *)
Definition preserves {A : Type} (R : World → World → Prop) (m : M A) : Prop :=
  ∀ w, match m w with
       | Done _ w' | Raised _ w' => R w w'
       | OutOfFuel => True
       end.

(** The clue target is left alone. *)
Definition same_clues (w w' : World) : Prop := clues w' = clues w.

(** The state after [k] successive runs of [init_solve] on [board]. *)
Fixpoint after_solves (k : nat) (board : Grid) (w : World) : World :=
  match k with
  | O => w
  | S k' =>
      match init_solve board false w with
      | Done _ w' => after_solves k' board w'
      | _ => w
      end
  end.

(** How an outcome [r] of the removal loop on [board], run with clue
    target [cl], relates to the recursive calls [rec]: a grid is
    returned only as the result of a recursive call on a 9x9 board with
    one clue less, made with the same target; and the allowance runs
    out only inside such a call. *)
Definition from_inner_call (rec : Grid → list (nat * nat) → M (option Grid))
    (board : Grid) (cl : Z) (r : outcome (option Grid)) : Prop :=
  match r with
  | Done (Some g) w' =>
      ∃ s e w1, grid9 s ∧ S (count_nonzero s) = count_nonzero board ∧
                clues w1 = cl ∧ rec s e w1 = Done (Some g) w'
  | Done None _ | Raised _ _ => True
  | OutOfFuel =>
      ∃ s e w1, grid9 s ∧ S (count_nonzero s) = count_nonzero board ∧
                rec s e w1 = OutOfFuel
  end.

(** ** Executable checks of the vocabulary, for concrete boards *)

Definition grid9_b (board : Grid) : bool :=
  bool_decide (length board = 9%nat) &&
  forallb (λ row : list Z, bool_decide (length row = 9%nat)) board.

Definition in_range_b (board : Grid) : bool :=
  forallb (λ c : (nat * nat) * Z, bool_decide (0 ≤ c.2 ≤ 9)) (ndenumerate board).

Definition full_b (board : Grid) : bool :=
  forallb (λ c : (nat * nat) * Z, bool_decide (c.2 ≠ 0)) (ndenumerate board).

Definition same_unit_b (c c' : nat * nat) : bool :=
  bool_decide (c.1 = c'.1) || bool_decide (c.2 = c'.2) ||
  (bool_decide (c.1 / 3 = c'.1 / 3)%nat && bool_decide (c.2 / 3 = c'.2 / 3)%nat).

Definition valid_b (board : Grid) : bool :=
  forallb (λ c : (nat * nat) * Z,
    forallb (λ c' : (nat * nat) * Z,
      bool_decide (c.2 = 0) || bool_decide (c.2 ≠ c'.2) ||
      negb (same_unit_b c.1 c'.1) || bool_decide (c.1 = c'.1))
    (ndenumerate board)) (ndenumerate board).

Definition extends_b (board g : Grid) : bool :=
  forallb (λ c : (nat * nat) * Z,
    bool_decide (c.2 = 0) ||
    match get_cell g c.1.1 c.1.2 with
    | Ok v => bool_decide (v = c.2)
    | Err _ => false
    end)
    (ndenumerate board).

Definition completion_b (board g : Grid) : bool :=
  grid9_b g && in_range_b g && full_b g && valid_b g && extends_b board g.

(** ** Concrete data *)

(** The random source that always draws 0: every [pop] takes the first
    element, every [randint] its lower bound. *)
Definition rng0 : Rng := {| stream := λ _, 0%N; pos := 0%N |}.

(** The solved grid of the worked example. *)
Definition solved_grid : Grid :=
  [ [5; 3; 4; 6; 7; 8; 9; 1; 2];
    [6; 7; 2; 1; 9; 5; 3; 4; 8];
    [1; 9; 8; 3; 4; 2; 5; 6; 7];
    [8; 5; 9; 7; 6; 1; 4; 2; 3];
    [4; 2; 6; 8; 5; 3; 7; 9; 1];
    [7; 1; 3; 9; 2; 4; 8; 5; 6];
    [9; 6; 1; 5; 3; 7; 2; 8; 4];
    [2; 8; 7; 4; 1; 9; 6; 3; 5];
    [3; 4; 5; 2; 8; 6; 1; 7; 9] ].

(** The same with the four corners of a box left empty. *)
Definition example_puzzle : Grid :=
  [ [0; 3; 4; 6; 7; 8; 9; 1; 2];
    [6; 7; 2; 1; 9; 5; 3; 4; 8];
    [1; 9; 0; 3; 4; 2; 5; 6; 7];
    [8; 5; 9; 7; 6; 1; 4; 2; 3];
    [4; 2; 6; 8; 0; 3; 7; 9; 1];
    [7; 1; 3; 9; 2; 4; 8; 5; 6];
    [9; 6; 1; 5; 3; 7; 2; 8; 4];
    [2; 8; 7; 4; 1; 9; 6; 3; 5];
    [3; 4; 5; 2; 8; 6; 1; 7; 0] ].

(** A full board that breaks every rule. *)
Definition ones99 : Grid := replicate 9 (replicate 9 1).

(** A malformed board: 42 in the first cell, the last cell empty. *)
Definition bad42 : Grid :=
  [ [42; 3; 4; 6; 7; 8; 9; 1; 2];
    [6; 7; 2; 1; 9; 5; 3; 4; 8];
    [1; 9; 8; 3; 4; 2; 5; 6; 7];
    [8; 5; 9; 7; 6; 1; 4; 2; 3];
    [4; 2; 6; 8; 5; 3; 7; 9; 1];
    [7; 1; 3; 9; 2; 4; 8; 5; 6];
    [9; 6; 1; 5; 3; 7; 2; 8; 4];
    [2; 8; 7; 4; 1; 9; 6; 3; 5];
    [3; 4; 5; 2; 8; 6; 1; 7; 0] ].

Definition bad42_filled : Grid :=
  [ [42; 3; 4; 6; 7; 8; 9; 1; 2];
    [6; 7; 2; 1; 9; 5; 3; 4; 8];
    [1; 9; 8; 3; 4; 2; 5; 6; 7];
    [8; 5; 9; 7; 6; 1; 4; 2; 3];
    [4; 2; 6; 8; 5; 3; 7; 9; 1];
    [7; 1; 3; 9; 2; 4; 8; 5; 6];
    [9; 6; 1; 5; 3; 7; 2; 8; 4];
    [2; 8; 7; 4; 1; 9; 6; 3; 5];
    [3; 4; 5; 2; 8; 6; 1; 7; 9] ].

(** A board with 41 clues (the first 41 cells of the solved grid), and
    the coordinates of its first 40 clues. *)
Definition board41 : Grid :=
  [ [5; 3; 4; 6; 7; 8; 9; 1; 2];
    [6; 7; 2; 1; 9; 5; 3; 4; 8];
    [1; 9; 8; 3; 4; 2; 5; 6; 7];
    [8; 5; 9; 7; 6; 1; 4; 2; 3];
    [4; 2; 6; 8; 5; 0; 0; 0; 0];
    [0; 0; 0; 0; 0; 0; 0; 0; 0];
    [0; 0; 0; 0; 0; 0; 0; 0; 0];
    [0; 0; 0; 0; 0; 0; 0; 0; 0];
    [0; 0; 0; 0; 0; 0; 0; 0; 0] ].

Definition excluded40 : list (nat * nat) :=
  (λ i : nat, (i / 9, i `mod` 9)%nat) <$> seq 0 40.

(** The random source whose k-th raw draw is k. *)
Definition rng_id : Rng := {| stream := λ n, n; pos := 0%N |}.

(** A valid board without completion: the first cell is empty, its row
    holds 1..8 and its column holds 9. *)
Definition dead_end_board : Grid :=
  [ [0; 1; 2; 3; 4; 5; 6; 7; 8];
    [9; 0; 0; 0; 0; 0; 0; 0; 0];
    [0; 0; 0; 0; 0; 0; 0; 0; 0];
    [0; 0; 0; 0; 0; 0; 0; 0; 0];
    [0; 0; 0; 0; 0; 0; 0; 0; 0];
    [0; 0; 0; 0; 0; 0; 0; 0; 0];
    [0; 0; 0; 0; 0; 0; 0; 0; 0];
    [0; 0; 0; 0; 0; 0; 0; 0; 0];
    [0; 0; 0; 0; 0; 0; 0; 0; 0] ].

(** [s] is [board] with one clue emptied. *)
Definition blanked (board s : Grid) : Prop :=
  ∃ y x n, get_cell board y x = Ok n ∧ n ≠ 0 ∧ set_cell board y x 0 = Ok s.

(** The solved grid with its first cell emptied. *)
Definition one_blank : Grid :=
  [ [0; 3; 4; 6; 7; 8; 9; 1; 2];
    [6; 7; 2; 1; 9; 5; 3; 4; 8];
    [1; 9; 8; 3; 4; 2; 5; 6; 7];
    [8; 5; 9; 7; 6; 1; 4; 2; 3];
    [4; 2; 6; 8; 5; 3; 7; 9; 1];
    [7; 1; 3; 9; 2; 4; 8; 5; 6];
    [9; 6; 1; 5; 3; 7; 2; 8; 4];
    [2; 8; 7; 4; 1; 9; 6; 3; 5];
    [3; 4; 5; 2; 8; 6; 1; 7; 9] ].

(** * Properties *)

(** ** Reasoning about the two monads *)

Lemma result_bind_eq {A B : Type} (r : result A) (f : A → result B) :
  (r ≫= f) = match r with Ok a => f a | Err e => Err e end.
Proof. reflexivity. Qed.

Lemma bind_eq {A B : Type} (m : M A) (f : A → M B) (w : World) :
  (m ≫= f) w =
  match m w with
  | Done a w' => f a w'
  | Raised e w' => Raised e w'
  | OutOfFuel => OutOfFuel
  end.
Proof. reflexivity. Qed.

Lemma bind_Done {A B : Type} (m : M A) (f : A → M B) w b w' :
  (m ≫= f) w = Done b w' → ∃ a w1, m w = Done a w1 ∧ f a w1 = Done b w'.
Proof. rewrite bind_eq. destruct (m w); [eauto | done | done]. Qed.

Lemma lift_Done {A : Type} (r : result A) w a w' :
  lift r w = Done a w' → r = Ok a ∧ w' = w.
Proof. unfold lift. destruct r; naive_solver. Qed.

(** ** Well-formed boards and cell access *)

Lemma get_cell_Ok board y x n :
  get_cell board y x = Ok n ↔ ∃ row, board !! y = Some row ∧ row !! x = Some n.
Proof.
  unfold get_cell. split.
  - destruct (board !! y) as [row|]; [|done].
    destruct (row !! x) eqn:E; [|done]. intros [= ->]. eauto.
  - intros (row & -> & ->). done.
Qed.

Lemma grid9_row board y row :
  grid9 board → board !! y = Some row → length row = 9%nat.
Proof. intros [_ H] Hy. by eapply (Forall_lookup_1 _ _ _ _ H Hy). Qed.

Lemma grid9_get board y x :
  grid9 board → (y < 9)%nat → (x < 9)%nat → ∃ n, get_cell board y x = Ok n.
Proof.
  intros Hg Hy Hx.
  destruct (lookup_lt_is_Some_2 board y) as [row Hrow]; [destruct Hg; lia|].
  destruct (lookup_lt_is_Some_2 row x) as [n Hn].
  { rewrite (grid9_row _ _ _ Hg Hrow). lia. }
  exists n. apply get_cell_Ok. eauto.
Qed.

Lemma get_cell_lt board y x n :
  grid9 board → get_cell board y x = Ok n → (y < 9)%nat ∧ (x < 9)%nat.
Proof.
  intros Hg (row & Hy & Hx)%get_cell_Ok.
  pose proof (grid9_row _ _ _ Hg Hy). destruct Hg as [Hl _].
  apply lookup_lt_Some in Hy, Hx. lia.
Qed.

Lemma set_cell_Ok board y x v b' :
  set_cell board y x v = Ok b' ↔
  ∃ row, board !! y = Some row ∧ (x < length row)%nat ∧
         b' = <[y := <[x := v]> row]> board.
Proof.
  unfold set_cell. split.
  - destruct (board !! y) as [row|]; [|done].
    case_decide; [|done]. intros [= <-]. eauto.
  - intros (row & -> & Hx & ->). by rewrite decide_True.
Qed.

Lemma grid9_set board y x v :
  grid9 board → (y < 9)%nat → (x < 9)%nat →
  ∃ b', set_cell board y x v = Ok b'.
Proof.
  intros Hg Hy Hx.
  destruct (lookup_lt_is_Some_2 board y) as [row Hrow]; [destruct Hg; lia|].
  eexists. apply set_cell_Ok. exists row. split_and!; [done| |done].
  rewrite (grid9_row _ _ _ Hg Hrow). lia.
Qed.

Lemma set_cell_grid9 board y x v b' :
  grid9 board → set_cell board y x v = Ok b' → grid9 b'.
Proof.
  intros Hg (row & Hy & Hx & ->)%set_cell_Ok. destruct Hg as [Hl Hr].
  split; [by rewrite length_insert|].
  apply Forall_insert; [done|]. rewrite length_insert.
  by eapply (Forall_lookup_1 _ _ _ _ Hr Hy).
Qed.

Lemma get_set_cell board y x v b' y' x' :
  set_cell board y x v = Ok b' →
  get_cell b' y' x' =
  if decide (y' = y ∧ x' = x) then Ok v else get_cell board y' x'.
Proof.
  intros (row & Hy & Hx & ->)%set_cell_Ok. unfold get_cell.
  destruct (decide (y' = y)) as [->|Hne].
  - rewrite list_lookup_insert_eq; [|by eapply lookup_lt_Some].
    rewrite Hy. destruct (decide (x' = x)) as [->|Hnx].
    + rewrite list_lookup_insert_eq; [|done]. by rewrite decide_True.
    + rewrite list_lookup_insert_ne; [|done]. rewrite decide_False; [done|].
      by intros [_ ?].
  - rewrite list_lookup_insert_ne; [|done]. rewrite decide_False; [done|].
    by intros [? _].
Qed.

Lemma get_set_cell_eq board y x v b' :
  set_cell board y x v = Ok b' → get_cell b' y x = Ok v.
Proof. intros H. rewrite (get_set_cell _ _ _ _ _ _ _ H). by rewrite decide_True. Qed.

Lemma get_set_cell_ne board y x v b' y' x' :
  set_cell board y x v = Ok b' → (y', x') ≠ (y, x) →
  get_cell b' y' x' = get_cell board y' x'.
Proof.
  intros H Hne. rewrite (get_set_cell _ _ _ _ _ _ _ H).
  rewrite decide_False; [done|]. intros [-> ->]. by apply Hne.
Qed.

(** Writing a cell twice is writing it once. *)
Lemma set_set_cell board y x u v b1 :
  set_cell board y x u = Ok b1 → set_cell b1 y x v = set_cell board y x v.
Proof.
  intros (row & Hy & Hx & ->)%set_cell_Ok. unfold set_cell.
  rewrite list_lookup_insert_eq; [|by eapply lookup_lt_Some].
  rewrite Hy, length_insert. case_decide; [|done].
  by rewrite list_insert_insert_eq, list_insert_insert_eq.
Qed.

(** Writing back the value a cell holds changes nothing. *)
Lemma set_cell_id board y x n :
  get_cell board y x = Ok n → set_cell board y x n = Ok board.
Proof.
  intros (row & Hy & Hx)%get_cell_Ok. apply set_cell_Ok.
  exists row. split_and!; [done|by eapply lookup_lt_Some|].
  rewrite (list_insert_id row x n Hx). by rewrite list_insert_id.
Qed.

(** ** The validator *)

Lemma for_return_None {A R : Type} (body : A → result (option R)) l :
  for_return body l = Ok None ↔ ∀ a, a ∈ l → body a = Ok None.
Proof.
  induction l as [|a l IH]; simpl.
  - split; [|done]. intros _ a Ha. by apply elem_of_nil in Ha.
  - rewrite result_bind_eq. split.
    + destruct (body a) as [[r|]|e] eqn:E; [done| |done].
      intros H b [->|Hb]%elem_of_cons; [done|]. by apply IH.
    + intros H. rewrite (H a) by apply list_elem_of_here.
      apply IH. intros b Hb. apply H. by apply list_elem_of_further.
Qed.

Lemma for_return_Some {A R : Type} (body : A → result (option R)) l v :
  for_return body l = Ok (Some v) → ∃ a, a ∈ l ∧ body a = Ok (Some v).
Proof.
  induction l as [|a l IH]; simpl; [done|].
  rewrite result_bind_eq. destruct (body a) as [[r|]|e] eqn:E; [| |done].
  - intros [= ->]. exists a. split; [apply list_elem_of_here|done].
  - intros (b & Hb & Hv)%IH. exists b. split; [by apply list_elem_of_further|done].
Qed.

Lemma for_return_total {A R : Type} (body : A → result (option R)) l :
  (∀ a, a ∈ l → ∃ r, body a = Ok r) → ∃ r, for_return body l = Ok r.
Proof.
  induction l as [|a l IH]; simpl; [eauto|]. intros H.
  rewrite result_bind_eq.
  destruct (H a) as [[r|] ->]; [apply list_elem_of_here|eauto|].
  apply IH. intros b Hb. apply H. by apply list_elem_of_further.
Qed.

(** Linear arithmetic with division and remainder by constants. *)
Ltac div_lia := zify; Z.div_mod_to_equations; lia.

Lemma box_corner_lt n : (n < 9)%nat → (n / 3 * 3 + 2 < 9)%nat.
Proof.
  intros H. div_lia.
Qed.

(** On a 9x9 board the validator raises nothing, and it answers [true]
    exactly when the value is absent from the row, the column and the
    box. *)
Lemma can_place_spec board y x value :
  grid9 board → (y < 9)%nat → (x < 9)%nat →
  ∃ b, can_place y x value board = Ok b ∧
       (b = true ↔ ¬ in_row board y value ∧ ¬ in_col board x value ∧
                   ¬ in_box board y x value).
Proof.
  intros Hg Hy Hx. unfold can_place.
  match goal with
  | |- context [for_return ?b (seq 0 9)] => set (body1 := b)
  end.
  match goal with
  | |- context [for_return ?b (seq 0 3) ≫= _] => set (body2 := b)
  end.
  assert (Hb1 : ∀ i, (i < 9)%nat → ∃ a b,
    get_cell board y i = Ok a ∧ get_cell board i x = Ok b ∧
    body1 i = if decide (a = value) then Ok (Some false)
              else if decide (b = value) then Ok (Some false) else Ok None).
  { intros i Hi. destruct (grid9_get board y i) as [a Ha]; [done..|].
    destruct (grid9_get board i x) as [b Hb]; [done..|].
    exists a, b. split_and!; [done..|]. unfold body1.
    rewrite Ha, result_bind_eq. case_decide; [done|]. by rewrite Hb. }
  pose proof (box_corner_lt y Hy) as Hsy. pose proof (box_corner_lt x Hx) as Hsx.
  set (inner := λ i j : nat,
         c ← get_cell board (y / 3 * 3 + j) (x / 3 * 3 + i);
         if decide (c = value) then Ok (Some false) else Ok None).
  assert (Hin : ∀ i j, (i < 3)%nat → (j < 3)%nat → ∃ c,
    get_cell board (y / 3 * 3 + j) (x / 3 * 3 + i) = Ok c ∧
    inner i j = if decide (c = value) then Ok (Some false) else Ok None).
  { intros i j Hi Hj.
    destruct (grid9_get board (y / 3 * 3 + j) (x / 3 * 3 + i)) as [c Hc];
      [done|lia|lia|].
    exists c. split; [done|]. unfold inner. by rewrite Hc. }
  destruct (for_return_total body1 (seq 0 9)) as [r1 Hr1].
  { intros i [_ Hi]%elem_of_seq. destruct (Hb1 i) as (a & b & _ & _ & ->); [lia|].
    repeat case_decide; eauto. }
  rewrite Hr1, result_bind_eq. destruct r1 as [b1|].
  - (* the row/column loop returned *)
    exists b1. split; [done|].
    apply for_return_Some in Hr1 as (i & [_ Hi]%elem_of_seq & Hbi).
    destruct (Hb1 i) as (a & b & Ha & Hb & Hbody); [lia|].
    rewrite Hbody in Hbi. split.
    + intros ->. repeat case_decide; done.
    + intros (Hrow & Hcol & _). exfalso.
      case_decide as Ea; [apply Hrow; exists i; split; [lia|by subst]|].
      case_decide as Eb; [apply Hcol; exists i; split; [lia|by subst]|done].
  - assert (Hrc : ¬ in_row board y value ∧ ¬ in_col board x value).
    { pose proof (proj1 (for_return_None _ _) Hr1) as Hall.
      split; intros (i & Hi & Hv);
        (destruct (Hb1 i) as (a & b & Ha & Hb & Hbody); [done|]);
        rewrite (Hall i) in Hbody by (apply elem_of_seq; lia);
        repeat case_decide; congruence. }
    assert (Hbody2 : ∀ i, body2 i = for_return (inner i) (seq 0 3)) by done.
    destruct (for_return_total body2 (seq 0 3)) as [r2 Hr2].
    { intros i [_ Hi]%elem_of_seq. rewrite Hbody2. apply for_return_total.
      intros j [_ Hj]%elem_of_seq.
      destruct (Hin i j) as (c & _ & ->); [lia..|]. case_decide; eauto. }
    rewrite Hr2, result_bind_eq. destruct r2 as [b2|].
    + exists b2. split; [done|].
      apply for_return_Some in Hr2 as (i & [_ Hi]%elem_of_seq & Hbi).
      rewrite Hbody2 in Hbi.
      apply for_return_Some in Hbi as (j & [_ Hj]%elem_of_seq & Hbj).
      destruct (Hin i j) as (c & Hc & Hbody); [lia..|].
      rewrite Hbody in Hbj. split.
      * intros ->. case_decide; done.
      * intros (_ & _ & Hbox). exfalso. case_decide as Ec; [|done].
        apply Hbox. exists i, j. split_and!; [lia..|by subst].
    + exists true. split; [done|]. split; [|done]. intros _.
      destruct Hrc as [Hrow Hcol]. split_and!; [done..|].
      intros (i & j & Hi & Hj & Hv).
      pose proof (proj1 (for_return_None _ _) Hr2 i) as Hall.
      rewrite Hbody2 in Hall.
      pose proof (proj1 (for_return_None _ _)
                    (Hall ltac:(apply elem_of_seq; lia)) j) as Hall2.
      specialize (Hall2 ltac:(apply elem_of_seq; lia)).
      destruct (Hin i j) as (c & Hc & Hbody); [done..|].
      rewrite Hbody in Hall2. case_decide; congruence.
Qed.

Lemma in_box_iff board y x value :
  grid9 board →
  in_box board y x value ↔
  ∃ y' x', (y / 3 = y' / 3)%nat ∧ (x / 3 = x' / 3)%nat ∧
           get_cell board y' x' = Ok value.
Proof.
  intros Hg. split.
  - intros (i & j & Hi & Hj & Hv).
    exists (y / 3 * 3 + j)%nat, (x / 3 * 3 + i)%nat.
    split_and!; [div_lia..|done].
  - intros (y' & x' & Hy & Hx & Hv).
    exists (x' `mod` 3)%nat, (y' `mod` 3)%nat.
    split_and!; [div_lia..|].
    replace (y / 3 * 3 + y' `mod` 3)%nat with y' by div_lia.
    by replace (x / 3 * 3 + x' `mod` 3)%nat with x' by div_lia.
Qed.

(** The validator in terms of units. *)
Lemma can_place_units board y x value :
  grid9 board → (y < 9)%nat → (x < 9)%nat →
  ∃ b, can_place y x value board = Ok b ∧
       (b = true ↔
        ∀ y' x', same_unit y x y' x' → get_cell board y' x' ≠ Ok value).
Proof.
  intros Hg Hy Hx.
  destruct (can_place_spec board y x value Hg Hy Hx) as (b & Hb & Hiff).
  exists b. split; [done|]. rewrite Hiff, (in_box_iff _ _ _ _ Hg). split.
  - intros (Hrow & Hcol & Hbox) y' x' Hu Hv.
    destruct (get_cell_lt _ _ _ _ Hg Hv) as [Hy' Hx'].
    destruct Hu as [<-|[<-|[? ?]]].
    + apply Hrow. by exists x'.
    + apply Hcol. by exists y'.
    + apply Hbox. by exists y', x'.
  - intros H. split_and!.
    + intros (i & _ & Hv). apply (H y i); [by left|done].
    + intros (i & _ & Hv). apply (H i x); [by right; left|done].
    + intros (y' & x' & ? & ? & Hv). apply (H y' x'); [by right; right|done].
Qed.

(** ** Enumeration and counting of cells *)

Lemma elem_of_enum_row y x0 row y' x n :
  ((y', x), n) ∈ enum_row y x0 row ↔
  y' = y ∧ (x0 ≤ x)%nat ∧ row !! (x - x0)%nat = Some n.
Proof.
  revert x0. induction row as [|m row IH]; intros x0; simpl.
  - rewrite elem_of_nil. split; [done|]. by intros (_ & _ & ?).
  - rewrite elem_of_cons, IH. split.
    + intros [[= -> -> ->]|(-> & Hle & Hn)].
      * split_and!; [done|lia|]. by rewrite Nat.sub_diag.
      * split_and!; [done|lia|].
        by replace (x - x0)%nat with (S (x - S x0)) by lia.
    + intros (-> & Hle & Hn). destruct (decide (x = x0)) as [->|Hne].
      * left. rewrite Nat.sub_diag in Hn. by injection Hn as ->.
      * right. split_and!; [done|lia|].
        by replace (x - x0)%nat with (S (x - S x0)) in Hn by lia.
Qed.

Lemma elem_of_enum_from y0 board y x n :
  ((y, x), n) ∈ enum_from y0 board ↔
  (y0 ≤ y)%nat ∧ ∃ row, board !! (y - y0)%nat = Some row ∧ row !! x = Some n.
Proof.
  revert y0. induction board as [|r board IH]; intros y0; simpl.
  - rewrite elem_of_nil. split; [done|]. by intros (_ & ? & ? & _).
  - rewrite elem_of_app, elem_of_enum_row, IH, Nat.sub_0_r. split.
    + intros [(-> & _ & Hn)|(Hle & row & Hrow & Hn)].
      * split; [lia|]. exists r. by rewrite Nat.sub_diag.
      * split; [lia|]. exists row.
        by replace (y - y0)%nat with (S (y - S y0)) by lia.
    + intros (Hle & row & Hrow & Hn). destruct (decide (y = y0)) as [->|Hne].
      * left. rewrite Nat.sub_diag in Hrow. injection Hrow as ->.
        split_and!; [done|lia|done].
      * right. split; [lia|]. exists row.
        by replace (y - y0)%nat with (S (y - S y0)) in Hrow by lia.
Qed.

Lemma elem_of_ndenumerate board y x n :
  ((y, x), n) ∈ ndenumerate board ↔ get_cell board y x = Ok n.
Proof.
  unfold ndenumerate. rewrite elem_of_enum_from, get_cell_Ok, Nat.sub_0_r.
  split; [by intros [_ ?]|]. intros H. split; [lia|done].
Qed.

Lemma find_zero_Some cs c : find_zero cs = Some c → (c, 0) ∈ cs.
Proof.
  induction cs as [|[c' n] cs IH]; simpl; [done|]. case_decide as E.
  - intros [= ->]. subst n. apply list_elem_of_here.
  - intros H. by apply list_elem_of_further, IH.
Qed.

Lemma find_zero_None cs c n : find_zero cs = None → (c, n) ∈ cs → n ≠ 0.
Proof.
  induction cs as [|[c' m] cs IH]; simpl; [by intros _ ?%elem_of_nil|].
  case_decide as E; [done|]. intros H [[= -> ->]|Hin]%elem_of_cons; [done|].
  by apply IH.
Qed.

Lemma find_zero_get board y x :
  find_zero (ndenumerate board) = Some (y, x) → get_cell board y x = Ok 0.
Proof. intros H%find_zero_Some. by apply elem_of_ndenumerate. Qed.

Lemma find_zero_full board : find_zero (ndenumerate board) = None → full board.
Proof.
  intros H y x v Hv. eapply find_zero_None; [done|].
  by apply elem_of_ndenumerate.
Qed.

Section counting.
Context (P : Z → Prop) `{!∀ n, Decision (P n)}.

Lemma count_row_insert row x n v :
  row !! x = Some n →
  (count_row P (<[x := v]> row) + weight P n = count_row P row + weight P v)%nat.
Proof.
  intros Hx. unfold count_row, weight.
  rewrite insert_take_drop by (by eapply lookup_lt_Some).
  rewrite <-(take_drop_middle row x n Hx) at 3.
  rewrite !filter_app, !filter_cons, !length_app.
  repeat case_decide; simpl; lia.
Qed.

Lemma sum_list_insert (f : list Z → nat) (board : Grid) y row row' :
  board !! y = Some row →
  (sum_list (f <$> <[y := row']> board) + f row =
   sum_list (f <$> board) + f row')%nat.
Proof.
  intros Hy. rewrite insert_take_drop by (by eapply lookup_lt_Some).
  rewrite <-(take_drop_middle board y row Hy) at 3.
  rewrite !fmap_app, !fmap_cons, !sum_list_with_app. simpl. lia.
Qed.

Lemma count_set_cell board y x n v b' :
  get_cell board y x = Ok n → set_cell board y x v = Ok b' →
  (sum_list (count_row P <$> b') + weight P n =
   sum_list (count_row P <$> board) + weight P v)%nat.
Proof.
  intros (row & Hy & Hx)%get_cell_Ok (row' & Hy' & _ & ->)%set_cell_Ok.
  assert (row' = row) as -> by congruence.
  pose proof (sum_list_insert (count_row P) board y row (<[x := v]> row) Hy).
  pose proof (count_row_insert row x n v Hx). lia.
Qed.
End counting.

Lemma count_zero_set board y x v b' :
  get_cell board y x = Ok 0 → v ≠ 0 → set_cell board y x v = Ok b' →
  S (count_zero b') = count_zero board.
Proof.
  intros Hget Hv Hset.
  pose proof (count_set_cell (λ n, n = 0) board y x 0 v b' Hget Hset) as H.
  unfold weight in H. rewrite decide_True, decide_False in H by done.
  unfold count_zero. unfold count_row in H. lia.
Qed.

Lemma count_nonzero_clear board y x n b' :
  get_cell board y x = Ok n → n ≠ 0 → set_cell board y x 0 = Ok b' →
  S (count_nonzero b') = count_nonzero board.
Proof.
  intros Hget Hv Hset.
  pose proof (count_set_cell (λ n, n ≠ 0) board y x n 0 b' Hget Hset) as H.
  unfold weight in H. rewrite decide_True, decide_False in H by (by auto).
  unfold count_nonzero. unfold count_row in H. lia.
Qed.

Lemma count_zero_le_cells board : (count_zero board ≤ cells board)%nat.
Proof.
  unfold count_zero, cells. induction board as [|row board IH]; [done|].
  rewrite !fmap_cons. cbn [sum_list_with].
  pose proof (length_filter (λ n, n = 0) row) as Hf. unfold id in *. lia.
Qed.

Lemma grid9_cells board : grid9 board → cells board = 81%nat.
Proof.
  intros [Hl Hr]. unfold cells.
  assert (H : ∀ b : Grid, Forall (λ row, length row = 9%nat) b →
              sum_list (length <$> b) = (9 * length b)%nat).
  { induction 1 as [|row b Hrow _ IH]; [done|].
    rewrite fmap_cons. cbn [sum_list_with length]. unfold id in *. lia. }
  rewrite H by done. lia.
Qed.

(** ** The random source and [pop] *)

Lemma randrange_Done n w :
  n ≠ 0%nat →
  ∃ i, (i < n)%nat ∧ randrange n w = Done i (with_rng (next_rng (rng w)) w).
Proof.
  intros Hn. unfold randrange. rewrite decide_False by done.
  eexists. split; [|done].
  pose proof (N.mod_upper_bound (stream (rng w) (pos (rng w))) (N.of_nat n)).
  lia.
Qed.

Lemma list_pop_Ok {A : Type} (l : list A) i :
  (i < length l)%nat →
  ∃ a, l !! i = Some a ∧ list_pop l i = Ok (a, delete i l).
Proof.
  intros Hi. destruct (lookup_lt_is_Some_2 l i Hi) as [a Ha].
  exists a. split; [done|]. unfold list_pop. by rewrite Ha.
Qed.

Lemma delete_split {A : Type} (l : list A) i a :
  l !! i = Some a →
  l = take i l ++ a :: drop (S i) l ∧ delete i l = take i l ++ drop (S i) l.
Proof.
  intros H. split; [by rewrite take_drop_middle|apply delete_take_drop].
Qed.

Lemma delete_facts {A : Type} (l : list A) i a :
  l !! i = Some a → NoDup l →
  NoDup (delete i l) ∧ (a ∉ delete i l) ∧ S (length (delete i l)) = length l ∧
  (∀ b, b ∈ l ↔ b = a ∨ b ∈ delete i l).
Proof.
  intros Hi Hnd. destruct (delete_split l i a Hi) as [El Ed].
  rewrite Ed. rewrite El in Hnd.
  apply NoDup_app in Hnd as (Hn1 & Hn2 & Hn3).
  apply NoDup_cons in Hn3 as [Hn3 Hn4]. split_and!.
  - apply NoDup_app. split_and!; [done| |done].
    intros b Hb Hb'. apply (Hn2 b Hb). by apply list_elem_of_further.
  - rewrite elem_of_app. intros [H|H]; [|done].
    apply (Hn2 a H). apply list_elem_of_here.
  - rewrite El at 3. rewrite !length_app. simpl. lia.
  - intros b. rewrite El at 1. rewrite !elem_of_app, elem_of_cons. tauto.
Qed.

(** ** Placing a value and the validity invariant *)

Lemma set_cell_lt board y x v b' :
  grid9 board → set_cell board y x v = Ok b' → (y < 9)%nat ∧ (x < 9)%nat.
Proof.
  intros Hg Hset. pose proof (get_set_cell_eq _ _ _ _ _ Hset) as Hget.
  eapply get_cell_lt; [|done]. by eapply set_cell_grid9.
Qed.

Lemma same_unit_sym y x y' x' : same_unit y x y' x' → same_unit y' x' y x.
Proof. unfold same_unit. intros [?|[?|[? ?]]]; auto. Qed.

(** A placement the validator accepts keeps the board valid.  The
    validator looks at [sudoku], which holds an earlier candidate [u] in
    the cell; the placement yields [board] with the cell set to [num]. *)
Lemma valid_place board y x u num sudoku s' :
  grid9 board → valid board →
  set_cell board y x u = Ok sudoku →
  can_place y x num sudoku = Ok true →
  set_cell board y x num = Ok s' → valid s'.
Proof.
  intros Hg Hval Hsud Hcp Hs'.
  destruct (set_cell_lt _ _ _ _ _ Hg Hsud) as [Hy Hx].
  destruct (can_place_units sudoku y x num) as (b & Hb & Hiff);
    [apply (set_cell_grid9 _ _ _ _ _ Hg Hsud)|done..|].
  assert (b = true) as -> by congruence.
  pose proof (proj1 Hiff eq_refl) as Hfree. clear Hiff Hb.
  assert (Hclash : ∀ y' x', (y', x') ≠ (y, x) → same_unit y x y' x' →
                            get_cell board y' x' ≠ Ok num).
  { intros y' x' Hne Hu. rewrite <-(get_set_cell_ne _ _ _ _ _ _ _ Hsud Hne).
    by apply Hfree. }
  intros y1 x1 y2 x2 v H1 H2 Hv Hu.
  rewrite (get_set_cell _ _ _ _ _ y1 x1 Hs') in H1.
  rewrite (get_set_cell _ _ _ _ _ y2 x2 Hs') in H2.
  destruct (decide (y1 = y ∧ x1 = x)) as [[-> ->]|N1];
    destruct (decide (y2 = y ∧ x2 = x)) as [[-> ->]|N2]; [done| | |].
  - injection H1 as <-. exfalso. apply (Hclash y2 x2); [|done..].
    intros [= -> ->]. by apply N2.
  - injection H2 as <-. exfalso. apply (Hclash y1 x1); [|by apply same_unit_sym|done].
    intros [= -> ->]. by apply N1.
  - by eapply Hval.
Qed.

Lemma in_range_set board y x v s' :
  in_range board → 0 ≤ v ≤ 9 → set_cell board y x v = Ok s' → in_range s'.
Proof.
  intros Hr Hv Hs' y' x' n. rewrite (get_set_cell _ _ _ _ _ _ _ Hs').
  case_decide; [by intros [= <-]|apply Hr].
Qed.

Lemma extends_shrink board y x num s' g :
  get_cell board y x = Ok 0 → set_cell board y x num = Ok s' →
  extends s' g → extends board g.
Proof.
  intros H0 Hs' Hext y' x' v Hv Hnz. apply Hext; [|done].
  rewrite (get_set_cell_ne _ _ _ _ _ _ _ Hs'); [done|].
  intros [= -> ->]. congruence.
Qed.

Lemma filled_from_shrink board y x u num sudoku s' g :
  grid9 board → get_cell board y x = Ok 0 →
  set_cell board y x u = Ok sudoku →
  can_place y x num sudoku = Ok true → 1 ≤ num ≤ 9 →
  set_cell board y x num = Ok s' →
  filled_from s' g → filled_from board g.
Proof.
  intros Hg H0 Hsud Hok Hnum Hs' (? & ? & Hext & Hval & Hran).
  split_and!; [done..|by eapply extends_shrink| |].
  - intros Hv. apply Hval. exact (valid_place _ _ _ _ _ _ _ Hg Hv Hsud Hok Hs').
  - intros Hr. apply Hran. apply (in_range_set board y x num s' Hr); [lia|done].
Qed.

Lemma filled_from_completion board g :
  valid board → in_range board → filled_from board g → completion board g.
Proof. intros Hv Hr (? & ? & ? & Hval & Hran). split_and!; auto. Qed.

Lemma completion_grow board y x vc s' c :
  completion board c → get_cell c y x = Ok vc →
  set_cell board y x vc = Ok s' → completion s' c.
Proof.
  intros (? & ? & ? & ? & Hext) Hvc Hs'. split_and!; [done..|].
  intros y' x' v. rewrite (get_set_cell _ _ _ _ _ _ _ Hs').
  case_decide as E; [|apply Hext]. destruct E as [-> ->]. by intros [= <-].
Qed.

(** The value a completion holds in a cell is accepted by the
    validator, whatever other candidate [u] the cell holds meanwhile. *)
Lemma can_place_completion board y x u vc sudoku c :
  grid9 board → completion board c →
  set_cell board y x u = Ok sudoku → get_cell c y x = Ok vc → u ≠ vc →
  can_place y x vc sudoku = Ok true.
Proof.
  intros Hg (Hgc & Hrc & Hfc & Hvc & Hext) Hsud Hc Hne.
  destruct (set_cell_lt _ _ _ _ _ Hg Hsud) as [Hy Hx].
  destruct (can_place_units sudoku y x vc) as (b & Hb & Hiff);
    [apply (set_cell_grid9 _ _ _ _ _ Hg Hsud)|done..|].
  rewrite Hb. f_equal. apply Hiff. intros y' x' Hu.
  rewrite (get_set_cell _ _ _ _ _ _ _ Hsud).
  case_decide as E; [congruence|]. intros Hv.
  pose proof (Hfc _ _ _ Hc) as Hnz.
  destruct (Hvc y x y' x' vc Hc (Hext _ _ _ Hv Hnz) Hnz Hu) as [-> ->].
  by apply E.
Qed.

(** ** The solver *)

Lemma numbers_1_9 v : v ∈ (Z.of_nat <$> seq 1 9) ↔ 1 ≤ v ≤ 9.
Proof.
  rewrite list_elem_of_fmap. split.
  - intros (n & -> & [? ?]%elem_of_seq). lia.
  - intros H. exists (Z.to_nat v). split; [lia|]. apply elem_of_seq. lia.
Qed.

Lemma numbers_NoDup : NoDup (Z.of_nat <$> seq 1 9).
Proof. apply NoDup_fmap; [apply _|apply NoDup_seq]. Qed.

Lemma try_numbers_unfold rec k y x numbers sudoku :
  numbers ≠ [] →
  try_numbers rec (S k) y x numbers sudoku =
  (i ← randrange (length numbers);
   '(num, numbers) ← lift (list_pop numbers i);
   sol ← gets solution;
   match sol with
   | None =>
       ok ← lift (can_place y x num sudoku);
       if ok : bool then
         sudoku ← lift (set_cell sudoku y x num);
         rec sudoku;;
         try_numbers rec k y x numbers sudoku
       else try_numbers rec k y x numbers sudoku
   | Some _ => mret ()
   end).
Proof. by destruct numbers. Qed.

(** The loop of [solve] over the candidate values of one cell.  [board]
    is the board the enclosing call received, with the cell empty;
    [sudoku] is its working copy, which holds the last placed candidate
    [u] (or still 0). *)
Lemma try_numbers_post rec k y x numbers sudoku board u w :
  grid9 board → get_cell board y x = Ok 0 →
  set_cell board y x u = Ok sudoku → u ∉ numbers →
  NoDup numbers → (∀ n, n ∈ numbers → 1 ≤ n ≤ 9) →
  (length numbers ≤ k)%nat →
  (∀ s w1, grid9 s → S (count_zero s) = count_zero board →
           ∃ w2, rec s w1 = Done () w2 ∧ solve_post s w1 w2) →
  ∃ w', try_numbers rec k y x numbers sudoku w = Done () w' ∧
    (∀ g, solution w = Some g → solution w' = Some g) ∧
    (solution w = None →
       (∀ g, solution w' = Some g → filled_from board g) ∧
       (∀ c vc, completion board c → get_cell c y x = Ok vc →
                vc ∈ numbers → is_Some (solution w'))).
Proof.
  intros Hg H0 Hsud Hu Hnd Hnum Hk Hrec.
  revert numbers sudoku u w Hsud Hu Hnd Hnum Hk.
  induction k as [|k IH]; intros numbers sudoku u w Hsud Hu Hnd Hnum Hk.
  { destruct numbers; [|simpl in Hk; lia]. exists w. split; [done|].
    split; [done|]. intros Hs. split; [congruence|].
    by intros c vc _ _ ?%elem_of_nil. }
  destruct (decide (numbers = [])) as [->|Hne].
  { exists w. split; [done|]. split; [done|]. intros Hs. split; [congruence|].
    by intros c vc _ _ ?%elem_of_nil. }
  rewrite try_numbers_unfold by done.
  destruct (randrange_Done (length numbers) w) as (i & Hi & Hrand).
  { by destruct numbers. }
  rewrite bind_eq, Hrand.
  destruct (list_pop_Ok numbers i Hi) as (num & Hnum_i & Hpop).
  rewrite bind_eq. unfold lift at 1. rewrite Hpop.
  destruct (delete_facts numbers i num Hnum_i Hnd) as (Hnd' & Hnotin & Hlen & Hmem).
  set (numbers' := delete i numbers) in *.
  set (w1 := with_rng _ w).
  assert (Hnum' : ∀ n, n ∈ numbers' → 1 ≤ n ≤ 9).
  { intros n Hn. apply Hnum, Hmem. by right. }
  assert (Hnum_in : num ∈ numbers) by (apply Hmem; by left).
  rewrite bind_eq. unfold gets at 1.
  change (solution w1) with (solution w).
  destruct (solution w) as [g0|] eqn:Hsol.
  { exists w1. split; [done|]. split; [|done]. by intros g [= <-]. }
  destruct (set_cell_lt _ _ _ _ _ Hg Hsud) as [Hy Hx].
  pose proof (set_cell_grid9 _ _ _ _ _ Hg Hsud) as Hgs.
  destruct (can_place_units sudoku y x num Hgs Hy Hx) as (ok & Hok & _).
  rewrite bind_eq. unfold lift at 1. rewrite Hok.
  assert (Hcompl_ne : ∀ c vc, completion board c → get_cell c y x = Ok vc →
            vc ∈ numbers → ok = false → vc ∈ numbers').
  { intros c vc Hc Hvc Hin ->. apply Hmem in Hin as [->|?]; [|done].
    rewrite (can_place_completion board y x u num sudoku c) in Hok;
      [done..|]. by intros ->. }
  destruct ok.
  - (* the value is placed and the solver recurses *)
    destruct (grid9_set board y x num Hg Hy Hx) as [s' Hs'].
    rewrite bind_eq. unfold lift at 1.
    rewrite (set_set_cell _ _ _ _ _ _ Hsud), Hs'.
    pose proof (set_cell_grid9 _ _ _ _ _ Hg Hs') as Hgs'.
    assert (Hnz : num ≠ 0) by (specialize (Hnum num Hnum_in); lia).
    destruct (Hrec s' w1 Hgs' (count_zero_set _ _ _ _ _ H0 Hnz Hs'))
      as (w2 & Hrec2 & Hpost2).
    rewrite bind_eq, Hrec2.
    destruct (IH numbers' s' num w2 Hs' Hnotin Hnd' Hnum' ltac:(lia))
      as (w' & Hloop & Hkeep & Hnone).
    exists w'. split; [done|]. split; [done|]. intros _.
    destruct (Hpost2 Hsol) as [Hsound2 Hcompl2]. split.
    + intros g Hg'.
      destruct (solution w2) as [g2|] eqn:Hsol2.
      * rewrite (Hkeep g2 eq_refl) in Hg'. injection Hg' as <-.
        apply (filled_from_shrink board y x u num sudoku s' g2);
          [done..|by apply Hnum|done|by apply Hsound2].
      * by apply (proj1 (Hnone eq_refl)).
    + intros c vc Hc Hvc Hin.
      destruct (solution w2) as [g2|] eqn:Hsol2.
      { rewrite (Hkeep g2 eq_refl). eauto. }
      apply Hmem in Hin as [->|Hin].
      * exfalso. destruct Hcompl2 as [g2 Hg2]; [|congruence].
        exists c. by eapply completion_grow.
      * by eapply (proj2 (Hnone eq_refl)).
  - (* the value is rejected; [sudoku] is unchanged *)
    destruct (IH numbers' sudoku u w1 Hsud) as (w' & Hloop & Hkeep & Hnone);
      [by intros ?; apply Hu, Hmem; right|done..|lia|].
    exists w'. split; [done|]. split; [done|]. intros _.
    destruct (Hnone Hsol) as [Hs Hc]. split; [done|].
    intros c vc Hcc Hvc Hin. eapply Hc; [done..|]. by eapply Hcompl_ne.
Qed.

Lemma solve_unfold depth board :
  solve depth board =
  match find_zero (ndenumerate board) with
  | Some (y, x) =>
      try_numbers
        (λ s, match depth with O => out_of_fuel | S d => solve d s end)
        9 y x (Z.of_nat <$> seq 1 9) board
  | None => modify (with_solution (Some board))
  end.
Proof. by destruct depth. Qed.

(** [solve] on a 9x9 board returns normally within the allowed depth,
    and meets [solve_post]. *)
Lemma solve_Done depth board w :
  grid9 board → (count_zero board ≤ depth)%nat →
  ∃ w', solve depth board w = Done () w' ∧ solve_post board w w'.
Proof.
  revert board w. induction depth as [depth IH] using lt_wf_ind.
  intros board w Hg Hd.
  rewrite solve_unfold.
  destruct (find_zero (ndenumerate board)) as [[y x]|] eqn:Hfz.
  - apply find_zero_get in Hfz.
    edestruct (try_numbers_post
      (λ s, match depth with O => out_of_fuel | S d => solve d s end)
      9 y x (Z.of_nat <$> seq 1 9) board board 0 w)
      as (w' & Hrun & _ & Hnone); [done|done|by apply set_cell_id| | | | | |].
    + rewrite numbers_1_9. lia.
    + apply numbers_NoDup.
    + intros n. by rewrite numbers_1_9.
    + done.
    + intros s w1 Hgs Hcz. destruct depth as [|d]; [lia|].
      apply IH; [lia|done|lia].
    + exists w'. split; [done|]. intros Hsol.
      destruct (Hnone Hsol) as [Hs Hc]. split; [done|].
      intros [c Hcc]. pose proof Hcc as (Hgc & Hrc & Hfc & _ & _).
      destruct (get_cell_lt _ _ _ _ Hg Hfz) as [Hy Hx].
      destruct (grid9_get c y x Hgc Hy Hx) as [vc Hvcell].
      apply (Hc c vc); [done..|].
      apply numbers_1_9. specialize (Hrc _ _ _ Hvcell).
      specialize (Hfc _ _ _ Hvcell). lia.
  - eexists. split; [done|]. intros Hsol. simpl. split.
    + intros g [= <-]. split_and!; [done|by apply find_zero_full| |done..].
      by intros y x v.
    + eauto.
Qed.

(** ** Frame properties

    What the solver and the oracle leave untouched, for any relation [R]
    on states that is a preorder and that the elementary state updates
    of the solver respect. *)

Section frame.
Context (R : World → World → Prop).
Hypothesis R_refl : ∀ w, R w w.
Hypothesis R_trans : ∀ w1 w2 w3, R w1 w2 → R w2 w3 → R w1 w3.
Hypothesis R_rng : ∀ r w, R w (with_rng r w).
Hypothesis R_solution : ∀ s w, R w (with_solution s w).
Hypothesis R_call : ∀ w, R w (count_call w).

Lemma preserves_ret {A : Type} (a : A) : preserves R (mret a).
Proof. intros w. apply R_refl. Qed.

Lemma preserves_bind {A B : Type} (m : M A) (f : A → M B) :
  preserves R m → (∀ a, preserves R (f a)) → preserves R (m ≫= f).
Proof.
  intros Hm Hf w. rewrite bind_eq. specialize (Hm w).
  destruct (m w) as [a w1|e w1|]; [|done..].
  specialize (Hf a w1). destruct (f a w1); eauto.
Qed.

Lemma preserves_lift {A : Type} (r : result A) : preserves R (lift r).
Proof. intros w. unfold lift. destruct r; apply R_refl. Qed.

Lemma preserves_gets {A : Type} (f : World → A) : preserves R (gets f).
Proof. intros w. apply R_refl. Qed.

Lemma preserves_raise {A : Type} e : preserves R (@raise A e).
Proof. intros w. apply R_refl. Qed.

Lemma preserves_out_of_fuel {A : Type} : preserves R (@out_of_fuel A).
Proof. done. Qed.

Lemma preserves_randrange n : preserves R (randrange n).
Proof. intros w. unfold randrange. case_decide; [apply R_refl|apply R_rng]. Qed.

Lemma preserves_try_numbers rec k y x numbers sudoku :
  (∀ s, preserves R (rec s)) →
  preserves R (try_numbers rec k y x numbers sudoku).
Proof.
  intros Hrec. revert numbers sudoku.
  induction k as [|k IH]; intros numbers sudoku.
  { destruct numbers; [apply preserves_ret|apply preserves_out_of_fuel]. }
  destruct (decide (numbers = [])) as [->|Hne]; [apply preserves_ret|].
  rewrite try_numbers_unfold by done.
  apply preserves_bind; [apply preserves_randrange|]. intros i.
  apply preserves_bind; [apply preserves_lift|]. intros [num numbers'].
  apply preserves_bind; [apply preserves_gets|]. intros [g|];
    [apply preserves_ret|].
  apply preserves_bind; [apply preserves_lift|]. intros [|]; [|apply IH].
  apply preserves_bind; [apply preserves_lift|]. intros s.
  apply preserves_bind; [apply Hrec|]. intros _. apply IH.
Qed.

Lemma preserves_solve depth board : preserves R (solve depth board).
Proof.
  revert board. induction depth as [|d IH]; intros board;
    rewrite solve_unfold;
    (destruct (find_zero (ndenumerate board)) as [[y x]|];
     [|by intros w; apply R_solution]);
    apply preserves_try_numbers; intros s;
    [apply preserves_out_of_fuel|apply IH].
Qed.

Lemma preserves_draw_puzzle a b : preserves R (draw_puzzle a b).
Proof.
  unfold draw_puzzle. destruct a, b;
    first [apply preserves_ret|apply preserves_raise].
Qed.

Lemma preserves_init_solve board drawing :
  preserves R (init_solve board drawing).
Proof.
  unfold init_solve.
  apply preserves_bind; [intros w; apply R_call|]. intros _.
  apply preserves_bind; [intros w; apply R_solution|]. intros _.
  apply preserves_bind; [apply preserves_solve|]. intros _.
  destruct drawing; [|apply preserves_ret].
  apply preserves_bind; [apply preserves_gets|]. intros s.
  apply preserves_bind; [apply preserves_gets|]. intros p.
  apply preserves_draw_puzzle.
Qed.

Lemma preserves_unique_loop n board first_solution :
  preserves R (unique_loop n board first_solution).
Proof.
  induction n as [|n IH]; simpl; [apply preserves_ret|].
  apply preserves_bind; [apply preserves_init_solve|]. intros _.
  apply preserves_bind; [apply preserves_gets|]. intros s.
  apply preserves_bind; [apply preserves_lift|]. intros d.
  destruct (np_any d); [apply preserves_ret|apply IH].
Qed.

Lemma preserves_unique board depth : preserves R (unique board depth).
Proof.
  unfold unique.
  apply preserves_bind; [apply preserves_init_solve|]. intros _.
  apply preserves_bind; [apply preserves_gets|]. intros s.
  apply preserves_unique_loop.
Qed.

Lemma preserves_skip_excluded k c indices excluded_nums :
  preserves R (skip_excluded k c indices excluded_nums).
Proof.
  revert c indices. induction k as [|k IH]; intros c indices; simpl;
    (destruct (_ && _); [|apply preserves_ret]);
    [apply preserves_out_of_fuel|].
  apply preserves_bind; [apply preserves_randrange|]. intros i.
  apply preserves_bind; [apply preserves_lift|]. intros [c' indices'].
  apply IH.
Qed.

Lemma preserves_while_indices rec k depth indices sudoku excluded_nums :
  (∀ s e, preserves R (rec s e)) →
  preserves R (while_indices rec k depth indices sudoku excluded_nums).
Proof.
  intros Hrec. revert indices sudoku excluded_nums.
  induction k as [|k IH]; intros indices sudoku excluded_nums.
  { destruct indices; [apply preserves_ret|apply preserves_out_of_fuel]. }
  destruct indices as [|c0 cs]; [apply preserves_ret|].
  cbn [while_indices].
  apply preserves_bind; [apply preserves_randrange|]. intros i.
  apply preserves_bind; [apply preserves_lift|]. intros [c indices'].
  apply preserves_bind; [apply preserves_skip_excluded|].
  intros [[y x] indices'']. case_bool_decide; [|apply IH].
  apply preserves_bind; [apply preserves_lift|]. intros n.
  apply preserves_bind; [apply preserves_lift|]. intros s.
  apply preserves_bind; [apply preserves_unique|]. intros u.
  apply preserves_bind.
  { destruct u; [apply Hrec|apply preserves_ret]. }
  intros [g|]; [apply preserves_ret|].
  apply preserves_bind; [apply preserves_gets|]. intros cl.
  case_decide; [apply preserves_ret|].
  apply preserves_bind; [apply preserves_lift|]. intros s'. apply IH.
Qed.

Lemma preserves_remove_numbers level board excluded :
  preserves R (remove_numbers level board excluded).
Proof.
  revert board excluded. induction level as [|l IH]; intros board excluded;
    simpl; (apply preserves_bind; [apply preserves_gets|]); intros cl;
    (case_decide; [|apply preserves_ret]);
    (apply preserves_bind; [apply preserves_gets|]); intros cl';
    apply preserves_while_indices; intros s e;
    [apply preserves_out_of_fuel|apply IH].
Qed.
End frame.

(** ** Soundness of the executable checks *)

Lemma grid9_b_spec board : grid9_b board = true → grid9 board.
Proof.
  unfold grid9_b. intros [H1 H2]%andb_prop. split.
  - by apply bool_decide_eq_true in H1.
  - apply Forall_forall. intros row Hrow.
    apply Is_true_true, forallb_True in H2.
    rewrite Forall_forall in H2. specialize (H2 row Hrow).
    by apply bool_decide_unpack in H2.
Qed.

Lemma forallb_ndenumerate (f : (nat * nat) * Z → bool) board y x n :
  forallb f (ndenumerate board) = true → get_cell board y x = Ok n →
  f ((y, x), n) = true.
Proof.
  intros H Hget. apply Is_true_true, forallb_True in H.
  rewrite Forall_forall in H. apply Is_true_true, H.
  by apply elem_of_ndenumerate.
Qed.

Lemma in_range_b_spec board : in_range_b board = true → in_range board.
Proof.
  intros H y x v Hv. apply (forallb_ndenumerate _ _ _ _ _ H) in Hv.
  by apply bool_decide_eq_true in Hv.
Qed.

Lemma full_b_spec board : full_b board = true → full board.
Proof.
  intros H y x v Hv. apply (forallb_ndenumerate _ _ _ _ _ H) in Hv.
  by apply bool_decide_eq_true in Hv.
Qed.

Lemma same_unit_b_spec y x y' x' :
  same_unit y x y' x' → same_unit_b (y, x) (y', x') = true.
Proof.
  unfold same_unit, same_unit_b. simpl. intros [?|[?|[? ?]]].
  - rewrite (bool_decide_eq_true_2 (y = y')) by done. done.
  - rewrite (bool_decide_eq_true_2 (x = x')) by done. by rewrite orb_true_r.
  - rewrite (bool_decide_eq_true_2 (y / 3 = y' / 3)%nat) by done.
    rewrite (bool_decide_eq_true_2 (x / 3 = x' / 3)%nat) by done.
    by rewrite orb_true_r.
Qed.

Lemma valid_b_spec board : valid_b board = true → valid board.
Proof.
  intros H y x y' x' v Hv Hv' Hnz Hu.
  apply (forallb_ndenumerate _ _ _ _ _ H) in Hv.
  apply (forallb_ndenumerate _ _ _ _ _ Hv) in Hv'. simpl in Hv'.
  rewrite (same_unit_b_spec _ _ _ _ Hu) in Hv'. simpl in Hv'.
  rewrite (bool_decide_eq_false_2 (v = 0)) in Hv' by done.
  rewrite (bool_decide_eq_false_2 (v ≠ v)) in Hv' by (by intros ?).
  rewrite orb_false_r in Hv'. simpl in Hv'.
  apply bool_decide_eq_true in Hv'. by injection Hv' as -> ->.
Qed.

Lemma extends_b_spec board g : extends_b board g = true → extends board g.
Proof.
  intros H y x v Hv Hnz. apply (forallb_ndenumerate _ _ _ _ _ H) in Hv.
  simpl in Hv. rewrite (bool_decide_eq_false_2 (v = 0)) in Hv by done.
  simpl in Hv. destruct (get_cell g y x) as [v'|]; [|done].
  by apply bool_decide_eq_true in Hv as ->.
Qed.

Lemma completion_b_spec board g :
  completion_b board g = true → completion board g.
Proof.
  unfold completion_b.
  intros [[[[H1 H2]%andb_prop H3]%andb_prop H4]%andb_prop H5]%andb_prop.
  split_and!; auto using grid9_b_spec, in_range_b_spec, full_b_spec,
    valid_b_spec, extends_b_spec.
Qed.

(** ** [init_solve] *)

Lemma solve_same_calls depth board :
  preserves (λ w w', solve_calls w' = solve_calls w) (solve depth board).
Proof. apply preserves_solve; [done|congruence|done..]. Qed.

Lemma solve_same_clues depth board : preserves same_clues (solve depth board).
Proof. apply preserves_solve; unfold same_clues; [done|congruence|done..]. Qed.

Lemma init_solve_eq board w :
  init_solve board false w =
  match solve (cells board) board (with_solution None (count_call w)) with
  | Done _ w' => Done () w'
  | Raised e w' => Raised e w'
  | OutOfFuel => OutOfFuel
  end.
Proof. reflexivity. Qed.

(** On a 9x9 board [init_solve] returns normally: it counts as one
    solver run, leaves the clue target alone, and what it records as the
    solution is filled from the board; it records one whenever the board
    is solvable. *)
Lemma init_solve_Done board w :
  grid9 board →
  ∃ w', init_solve board false w = Done () w' ∧
        solve_calls w' = S (solve_calls w) ∧ clues w' = clues w ∧
        (∀ g, solution w' = Some g → filled_from board g) ∧
        (solvable board → is_Some (solution w')).
Proof.
  intros Hg. rewrite init_solve_eq.
  set (w0 := with_solution None (count_call w)).
  destruct (solve_Done (cells board) board w0 Hg (count_zero_le_cells board))
    as (w' & Hrun & Hpost).
  exists w'. rewrite Hrun. split; [done|].
  pose proof (solve_same_calls (cells board) board w0) as Hc.
  pose proof (solve_same_clues (cells board) board w0) as Hcl.
  rewrite Hrun in Hc, Hcl. unfold same_clues in Hcl.
  split_and!; [by rewrite Hc|by rewrite Hcl|apply Hpost..]; done.
Qed.

(** A board without empty cells is recorded as the solution at once,
    whatever its shape and contents. *)
Lemma solve_full depth board w :
  full board → solve depth board w = Done () (with_solution (Some board) w).
Proof.
  intros Hf. rewrite solve_unfold.
  destruct (find_zero (ndenumerate board)) as [[y x]|] eqn:Hfz; [|done].
  apply find_zero_get in Hfz. by destruct (Hf _ _ _ Hfz).
Qed.

Lemma init_solve_full board w :
  full board →
  init_solve board false w = Done () (with_solution (Some board) (count_call w)).
Proof. intros Hf. rewrite init_solve_eq. by rewrite solve_full. Qed.

(** ** The uniqueness oracle *)

Lemma solvable_valid board : solvable board → valid board.
Proof.
  intros (c & _ & _ & _ & Hv & Hext) y x y' x' v H1 H2 Hnz Hu.
  apply (Hv y x y' x' v); auto.
Qed.

Lemma solvable_in_range board : grid9 board → solvable board → in_range board.
Proof.
  intros Hg (c & _ & Hr & _ & _ & Hext) y x v Hget.
  destruct (decide (v = 0)) as [->|Hnz]; [lia|].
  apply (Hr y x). by apply Hext.
Qed.

Lemma wrap64_small z : -9 ≤ z ≤ 9 → wrap64 z = z.
Proof. intros H. unfold wrap64. rewrite Z.mod_small; lia. Qed.

Lemma row_compare (r1 r2 : list Z) :
  length r1 = length r2 →
  Forall (λ v, 0 ≤ v ≤ 9) r1 → Forall (λ v, 0 ≤ v ≤ 9) r2 →
  existsb (λ n, negb (n =? 0)) (zip_with (λ u v, wrap64 (u - v)) r1 r2) = false
  ↔ r1 = r2.
Proof.
  revert r2. induction r1 as [|u r1 IH]; intros [|v r2] Hl H1 H2;
    simpl in *; try done.
  apply Forall_cons in H1 as [Hu H1]. apply Forall_cons in H2 as [Hv H2].
  rewrite wrap64_small by lia. rewrite orb_false_iff, IH by (done || lia).
  rewrite negb_false_iff, Z.eqb_eq. split.
  - intros [? ->]. f_equal. lia.
  - intros [= -> ->]. split; [lia|done].
Qed.

Lemma grid_compare (a b : Grid) :
  length <$> a = length <$> b →
  Forall (Forall (λ v, 0 ≤ v ≤ 9)) a → Forall (Forall (λ v, 0 ≤ v ≤ 9)) b →
  np_any (zip_with (zip_with (λ u v, wrap64 (u - v))) a b) = false ↔ a = b.
Proof.
  unfold np_any. revert b. induction a as [|r1 a IH]; intros [|r2 b] Hl H1 H2;
    simpl in *; try done.
  apply Forall_cons in H1 as [Hr1 H1]. apply Forall_cons in H2 as [Hr2 H2].
  injection Hl as Hl1 Hl. rewrite orb_false_iff, IH, row_compare by done.
  split; [by intros [-> ->]|by intros [= -> ->]].
Qed.

Lemma grid9_shape board : grid9 board → length <$> board = replicate 9 9%nat.
Proof.
  intros [Hl Hr].
  assert (H : length <$> board = replicate (length board) 9%nat).
  { clear Hl. induction Hr as [|row b Hrow _ IH]; [done|].
    rewrite fmap_cons, Hrow, IH. done. }
  by rewrite H, Hl.
Qed.

Lemma in_range_Forall board :
  in_range board → Forall (Forall (λ v, 0 ≤ v ≤ 9)) board.
Proof.
  intros Hr. apply Forall_lookup. intros y row Hy.
  apply Forall_lookup. intros x v Hx. apply (Hr y x). apply get_cell_Ok. eauto.
Qed.

(** The comparison [np.any(a - b)] of two 9x9 boards with cells in 0..9
    raises nothing and tells whether they differ in some cell. *)
Lemma np_compare a b :
  grid9 a → grid9 b → in_range a → in_range b →
  ∃ d, np_sub (Some a) (Some b) = Ok d ∧ (np_any d = false ↔ a = b).
Proof.
  intros Ha Hb Hra Hrb. unfold np_sub.
  rewrite decide_True by (by rewrite !grid9_shape).
  eexists. split; [done|].
  apply grid_compare; [by rewrite !grid9_shape|by apply in_range_Forall..].
Qed.

Lemma after_solves_S k board w w1 :
  init_solve board false w = Done () w1 →
  after_solves (S k) board w = after_solves k board w1.
Proof. intros H. simpl. by rewrite H. Qed.

Lemma after_solves_calls k board w :
  grid9 board → solve_calls (after_solves k board w) = (solve_calls w + k)%nat.
Proof.
  intros Hg. revert w. induction k as [|k IH]; intros w; [simpl; lia|].
  destruct (init_solve_Done board w Hg) as (w1 & Hrun & Hc & _).
  rewrite (after_solves_S _ _ _ _ Hrun), IH, Hc. lia.
Qed.

(** One run of [init_solve] on a solvable 9x9 board records a valid
    completion. *)
Lemma init_solve_solvable board w :
  grid9 board → solvable board →
  ∃ w1 s, init_solve board false w = Done () w1 ∧ solution w1 = Some s ∧
          completion board s.
Proof.
  intros Hg Hs.
  destruct (init_solve_Done board w Hg) as (w1 & Hrun & _ & _ & Hfill & Hsome).
  destruct (Hsome Hs) as [s Hsol]. exists w1, s. split_and!; [done..|].
  apply filled_from_completion; [by apply solvable_valid|
    by apply solvable_in_range|by apply Hfill].
Qed.

(** The comparison loop of [unique]: it stops at the first run [k] whose
    solution differs from the reference, or after all [n] runs. *)
Lemma unique_loop_spec board ref n w :
  grid9 board → solvable board → completion board ref →
  ∃ b w' k, unique_loop n board (Some ref) w = Done b w' ∧ (k ≤ n)%nat ∧
    w' = after_solves k board w ∧
    (∀ j, (1 ≤ j < k)%nat → solution (after_solves j board w) = Some ref) ∧
    (b = false →
       (1 ≤ k)%nat ∧ solution (after_solves k board w) ≠ Some ref) ∧
    (b = true →
       k = n ∧
       ∀ j, (1 ≤ j ≤ n)%nat → solution (after_solves j board w) = Some ref).
Proof.
  intros Hg Hs Href. revert w. induction n as [|n IH]; intros w.
  { exists true, w, 0%nat. split_and!; [done|lia|done| |done|].
    - intros j Hj. lia.
    - intros _. split; [done|]. intros j Hj. lia. }
  destruct (init_solve_solvable board w Hg Hs) as (w1 & s & Hrun & Hsol & Hcs).
  cbn [unique_loop]. rewrite bind_eq, Hrun, bind_eq. unfold gets at 1.
  rewrite Hsol, bind_eq.
  pose proof Hcs as (Hgs & Hrs & _). pose proof Href as (Hgr & Hrr & _).
  destruct (np_compare s ref Hgs Hgr Hrs Hrr) as (d & Hd & Hiff).
  unfold lift at 1. rewrite Hd.
  assert (H1 : after_solves 1 board w = w1) by (by simpl; rewrite Hrun).
  destruct (np_any d) eqn:Hany.
  - exists false, w1, 1%nat. split_and!; [done|lia|done| | |done].
    + intros j Hj. lia.
    + intros _. split; [done|]. rewrite H1, Hsol. intros [= ->].
      by pose proof (proj2 Hiff eq_refl).
  - pose proof (proj1 Hiff eq_refl) as ->.
    destruct (IH w1) as (b & w' & k & Hloop & Hk & Hw' & Hbefore & Hf & Ht).
    exists b, w', (S k). rewrite (after_solves_S _ _ _ _ Hrun).
    split_and!; [done|lia|done| | |].
    + intros j Hj. destruct j as [|j]; [lia|].
      rewrite (after_solves_S _ _ _ _ Hrun). destruct j as [|j]; [done|].
      apply Hbefore. lia.
    + intros Hb. destruct (Hf Hb). split; [lia|done].
    + intros Hb. destruct (Ht Hb) as [-> Hall]. split; [done|].
      intros j Hj. destruct j as [|j]; [lia|].
      rewrite (after_solves_S _ _ _ _ Hrun). destruct j as [|j]; [done|].
      apply Hall. lia.
Qed.

(** ** The generator *)

Lemma same_clues_unique board depth : preserves same_clues (unique board depth).
Proof. apply preserves_unique; unfold same_clues; [done|congruence|done..]. Qed.

Lemma same_clues_init_solve board drawing :
  preserves same_clues (init_solve board drawing).
Proof. apply preserves_init_solve; unfold same_clues; [done|congruence|done..]. Qed.

Lemma same_clues_skip_excluded k c indices excluded_nums :
  preserves same_clues (skip_excluded k c indices excluded_nums).
Proof. apply preserves_skip_excluded; unfold same_clues; [done|congruence|done]. Qed.

Lemma same_clues_remove_numbers level board excluded :
  preserves same_clues (remove_numbers level board excluded).
Proof.
  apply preserves_remove_numbers; unfold same_clues; [done|congruence|done..].
Qed.

Lemma same_calls_skip_excluded k c indices excluded_nums :
  preserves (λ w w', solve_calls w' = solve_calls w)
    (skip_excluded k c indices excluded_nums).
Proof. apply preserves_skip_excluded; [done|congruence|done]. Qed.

(** On a 9x9 board the oracle returns or raises; it never exhausts the
    recursion allowance of the solver. *)
Lemma unique_loop_no_oof n board first_solution w :
  grid9 board → unique_loop n board first_solution w ≠ OutOfFuel.
Proof.
  intros Hg. revert w. induction n as [|n IH]; intros w; [done|].
  destruct (init_solve_Done board w Hg) as (w1 & Hrun & _).
  cbn [unique_loop]. rewrite bind_eq, Hrun, bind_eq. unfold gets at 1.
  rewrite bind_eq. unfold lift at 1.
  destruct (np_sub _ _) as [d|e]; [|done]. destruct (np_any d); [done|apply IH].
Qed.

Lemma unique_no_oof board depth w :
  grid9 board → unique board depth w ≠ OutOfFuel.
Proof.
  intros Hg. destruct (init_solve_Done board w Hg) as (w1 & Hrun & _).
  unfold unique. rewrite bind_eq, Hrun, bind_eq. unfold gets at 1.
  by apply unique_loop_no_oof.
Qed.

Lemma elem_of_nonzero_coords board y x :
  (y, x) ∈ nonzero_coords board ↔ ∃ n, get_cell board y x = Ok n ∧ n ≠ 0.
Proof.
  unfold nonzero_coords. rewrite list_elem_of_fmap. split.
  - intros ([[y' x'] n] & [= -> ->] & [Hn Hin]%list_elem_of_filter).
    exists n. split; [by apply elem_of_ndenumerate|done].
  - intros (n & Hget & Hn). exists ((y, x), n). split; [done|].
    apply list_elem_of_filter. split; [done|by apply elem_of_ndenumerate].
Qed.

Lemma skip_excluded_Done k c indices excluded_nums w :
  (length indices ≤ k)%nat →
  ∃ c' indices' w',
    skip_excluded k c indices excluded_nums w = Done (c', indices') w' ∧
    (c' = c ∨ c' ∈ indices) ∧ (∀ d, d ∈ indices' → d ∈ indices) ∧
    (length indices' ≤ length indices)%nat.
Proof.
  revert c indices w. induction k as [|k IH]; intros c indices w Hk.
  { destruct indices; [|simpl in Hk; lia]. simpl.
    rewrite andb_false_r. exists c, [], w. split_and!; auto. }
  cbn [skip_excluded].
  destruct (bool_decide (c ∈ excluded_nums) && bool_decide (indices ≠ [])) eqn:E.
  - apply andb_prop in E as [_ Hne%bool_decide_eq_true].
    destruct (randrange_Done (length indices) w) as (i & Hi & Hrand).
    { by destruct indices. }
    destruct (list_pop_Ok indices i Hi) as (c1 & Hc1 & Hpop).
    rewrite bind_eq, Hrand, bind_eq. unfold lift at 1. rewrite Hpop.
    assert (Hlen : S (length (delete i indices)) = length indices).
    { rewrite length_delete by eauto. lia. }
    destruct (IH c1 (delete i indices) (with_rng (next_rng (rng w)) w))
      as (c' & indices' & w' & Hrun & Hc' & Hsub & Hl); [lia|].
    exists c', indices', w'. split_and!; [done| | |lia].
    + right. destruct Hc' as [->|Hin].
      * by eapply list_elem_of_lookup_2.
      * by eapply list_elem_of_delete_inv.
    + intros d Hd. eapply list_elem_of_delete_inv. by apply Hsub.
  - exists c, indices, w. split_and!; auto.
Qed.

Lemma while_indices_unfold rec k depth indices sudoku excluded_nums :
  indices ≠ [] →
  while_indices rec (S k) depth indices sudoku excluded_nums =
  (i ← randrange (length indices);
   '(c, indices) ← lift (list_pop indices i);
   '(c, indices) ← skip_excluded (length indices) c indices excluded_nums;
   let '(y, x) := c in
   if bool_decide (indices ≠ []) then
     n ← lift (get_cell sudoku y x);
     sudoku ← lift (set_cell sudoku y x 0);
     u ← unique sudoku depth;
     next_layer ← (if u : bool then rec sudoku excluded_nums
                   else mret None);
     match next_layer with
     | Some g => mret (Some g)
     | None =>
         let excluded_nums := excluded_nums ++ [(y, x)] in
         cl ← gets clues;
         if decide (Z.of_nat (length excluded_nums) > cl)
         then mret None
         else
           sudoku ← lift (set_cell sudoku y x n);
           while_indices rec k depth indices sudoku excluded_nums
     end
   else while_indices rec k depth indices sudoku excluded_nums).
Proof. by destruct indices. Qed.

Lemma remove_numbers_unfold level board excluded :
  remove_numbers level board excluded =
  (cl ← gets clues;
   if decide (Z.of_nat (count_nonzero board) > cl) then
     cl ← gets clues;
     let depth :=
       if decide (Z.of_nat (count_nonzero board) = cl + 1)
       then generator_depth.2 else generator_depth.1 in
     let indices := nonzero_coords board in
     while_indices
       (λ s e, match level with
               | O => out_of_fuel
               | S l => remove_numbers l s e
               end)
       (length indices) depth indices board excluded
   else mret (Some board)).
Proof. by destruct level. Qed.

(** The removal loop hands every grid it returns up from a recursive
    call on the board with one clue removed. *)
Lemma while_indices_cases rec k depth indices sudoku excluded_nums w :
  grid9 sudoku →
  (∀ c, c ∈ indices → c ∈ nonzero_coords sudoku) →
  (length indices ≤ k)%nat →
  (∀ s e, preserves same_clues (rec s e)) →
  from_inner_call rec sudoku (clues w)
    (while_indices rec k depth indices sudoku excluded_nums w).
Proof.
  intros Hg Hsub Hk Hrec. revert indices excluded_nums w Hsub Hk.
  induction k as [|k IH]; intros indices excluded_nums w Hsub Hk.
  { destruct indices; [done|simpl in Hk; lia]. }
  destruct (decide (indices = [])) as [->|Hne]; [done|].
  rewrite while_indices_unfold by done.
  destruct (randrange_Done (length indices) w) as (i & Hi & Hrand).
  { by destruct indices. }
  rewrite bind_eq, Hrand. set (w1 := with_rng _ w).
  destruct (list_pop_Ok indices i Hi) as (c0 & Hc0 & Hpop).
  rewrite bind_eq. unfold lift at 1. rewrite Hpop.
  assert (Hlen : S (length (delete i indices)) = length indices).
  { rewrite length_delete by eauto. lia. }
  destruct (skip_excluded_Done (length (delete i indices)) c0
              (delete i indices) excluded_nums w1)
    as ([y x] & indices' & w2 & Hskip & Hc' & Hsub' & Hl'); [lia|].
  rewrite bind_eq, Hskip.
  assert (Hcl2 : clues w2 = clues w).
  { pose proof (same_clues_skip_excluded (length (delete i indices)) c0
                  (delete i indices) excluded_nums w1) as H.
    by rewrite Hskip in H. }
  assert (Hsub2 : ∀ c, c ∈ indices' → c ∈ nonzero_coords sudoku).
  { intros c Hc. by eapply Hsub, list_elem_of_delete_inv, Hsub'. }
  assert (Hnext : ∀ s e w4, clues w4 = clues w →
            from_inner_call rec sudoku (clues w)
              (while_indices rec k depth indices' s e w4) ∨ s ≠ sudoku).
  { intros s e w4 Hw4. destruct (decide (s = sudoku)) as [->|]; [left|by right].
    rewrite <-Hw4. apply IH; [done|lia]. }
  case_bool_decide as Hrest.
  2:{ by destruct (Hnext sudoku excluded_nums w2 Hcl2). }
  assert (Hyx : (y, x) ∈ nonzero_coords sudoku).
  { apply Hsub. destruct Hc' as [->|Hin].
    - by eapply list_elem_of_lookup_2.
    - by eapply list_elem_of_delete_inv. }
  apply elem_of_nonzero_coords in Hyx as (n & Hget & Hn).
  destruct (get_cell_lt _ _ _ _ Hg Hget) as [Hy Hx].
  destruct (grid9_set sudoku y x 0 Hg Hy Hx) as [s0 Hs0].
  pose proof (set_cell_grid9 _ _ _ _ _ Hg Hs0) as Hg0.
  pose proof (count_nonzero_clear _ _ _ _ _ Hget Hn Hs0) as Hcount.
  rewrite bind_eq. unfold lift at 1. rewrite Hget.
  rewrite bind_eq. unfold lift at 1. rewrite Hs0. rewrite bind_eq.
  pose proof (unique_no_oof s0 depth w2 Hg0) as Hoof.
  pose proof (same_clues_unique s0 depth w2) as Hcl3.
  destruct (unique s0 depth w2) as [u w3|e w3|]; [|done|done].
  unfold same_clues in Hcl3.
  (* what follows a failed attempt *)
  assert (Htail : ∀ w4, clues w4 = clues w →
    from_inner_call rec sudoku (clues w)
      ((cl ← gets clues;
        if decide (Z.of_nat (length (excluded_nums ++ [(y, x)])) > cl)
        then mret None
        else
          sudoku' ← lift (set_cell s0 y x n);
          while_indices rec k depth indices' sudoku'
            (excluded_nums ++ [(y, x)])) w4)).
  { intros w4 Hw4. rewrite bind_eq. unfold gets at 1.
    case_decide; [done|]. rewrite bind_eq. unfold lift at 1.
    rewrite (set_set_cell _ _ _ _ _ _ Hs0), (set_cell_id _ _ _ _ Hget).
    by destruct (Hnext sudoku (excluded_nums ++ [(y, x)]) w4 Hw4). }
  rewrite bind_eq. destruct u.
  - pose proof (Hrec s0 excluded_nums w3) as Hcl4.
    destruct (rec s0 excluded_nums w3) as [[g|] w4|e w4|] eqn:Hr.
    + exists s0, excluded_nums, w3. split_and!; [done..|congruence|done].
    + apply Htail. unfold same_clues in Hcl4. congruence.
    + done.
    + exists s0, excluded_nums, w3. by split_and!.
  - apply Htail. congruence.
Qed.

Lemma nonzero_coords_length board :
  length (nonzero_coords board) = count_nonzero board.
Proof.
  unfold nonzero_coords, ndenumerate, count_nonzero. rewrite length_fmap.
  generalize 0%nat. induction board as [|row board IH]; intros y; [done|].
  cbn [enum_from]. rewrite filter_app, length_app, IH, fmap_cons.
  cbn [sum_list_with]. unfold id at 1. f_equal.
  generalize 0%nat. induction row as [|n row IHr]; intros x; [done|].
  cbn [enum_row]. rewrite !filter_cons. simpl.
  destruct (decide (n ≠ 0)); simpl; by rewrite IHr.
Qed.

(** [remove_numbers] never exhausts its recursion allowance when that
    is at least the number of clues on the board. *)
Lemma remove_numbers_no_oof level board excluded w :
  grid9 board → (count_nonzero board ≤ level)%nat →
  remove_numbers level board excluded w ≠ OutOfFuel.
Proof.
  revert board excluded w. induction level as [level IH] using lt_wf_ind.
  intros board excluded w Hg Hl. rewrite remove_numbers_unfold.
  rewrite bind_eq. unfold gets at 1. case_decide; [|done].
  rewrite bind_eq. unfold gets at 1.
  match goal with
  | |- while_indices ?r ?k ?d ?i ?s ?e ?w ≠ _ =>
      pose proof (while_indices_cases r k d i s e w Hg) as Hc
  end.
  intros Hoof. rewrite Hoof in Hc.
  destruct Hc as (s & e & w1 & Hgs & Hcount & Hrun); [done|done| |].
  { intros s e. destruct level; [done|apply same_clues_remove_numbers]. }
  destruct level as [|l]; [lia|]. revert Hrun. apply IH; [lia|done|lia].
Qed.

(** A grid returned by [remove_numbers] has exactly the target number
    of clues, provided the board did not start below the target. *)
Lemma remove_numbers_count level board excluded w g w' :
  grid9 board → clues w ≤ Z.of_nat (count_nonzero board) →
  remove_numbers level board excluded w = Done (Some g) w' →
  Z.of_nat (count_nonzero g) = clues w ∧ grid9 g.
Proof.
  revert board excluded w. induction level as [level IH] using lt_wf_ind.
  intros board excluded w Hg Hl. rewrite remove_numbers_unfold.
  rewrite bind_eq. unfold gets at 1. case_decide as Hgt.
  2:{ intros [= <- <-]. split; [lia|done]. }
  rewrite bind_eq. unfold gets at 1.
  match goal with
  | |- while_indices ?r ?k ?d ?i ?s ?e ?w = _ → _ =>
      pose proof (while_indices_cases r k d i s e w Hg) as Hc
  end.
  intros Hrun. rewrite Hrun in Hc.
  destruct Hc as (s & e & w1 & Hgs & Hcount & Hcl & Hrec); [done|done| |].
  { intros s e. destruct level; [done|apply same_clues_remove_numbers]. }
  destruct level as [|l]; [done|]. rewrite <-Hcl.
  apply (IH l ltac:(lia) s e w1); [done|lia|done].
Qed.

(** Emptying a cell keeps a board solvable. *)
Lemma solvable_clear board y x s0 :
  solvable board → set_cell board y x 0 = Ok s0 → solvable s0.
Proof.
  intros (c & ? & ? & ? & ? & Hext) Hs0. exists c. split_and!; [done..|].
  intros y' x' v. rewrite (get_set_cell _ _ _ _ _ _ _ Hs0).
  case_decide; [by intros [= <-]|apply Hext].
Qed.

(** On a solvable 9x9 board the oracle returns: it raises nothing. *)
Lemma unique_Done board depth w :
  grid9 board → solvable board → ∃ b w', unique board depth w = Done b w'.
Proof.
  intros Hg Hs.
  destruct (init_solve_solvable board w Hg Hs) as (w1 & ref & Hrun & Hsol & Href).
  destruct (unique_loop_spec board ref depth w1 Hg Hs Href)
    as (b & w' & k & Hloop & _).
  exists b, w'. unfold unique. rewrite bind_eq, Hrun, bind_eq. unfold gets at 1.
  by rewrite Hsol.
Qed.

(** On a solvable 9x9 board the removal loop returns, provided the
    recursive calls on solvable boards with one clue less do. *)
Lemma while_indices_Done rec k depth indices sudoku excluded_nums w :
  grid9 sudoku → solvable sudoku →
  (∀ c, c ∈ indices → c ∈ nonzero_coords sudoku) →
  (length indices ≤ k)%nat →
  (∀ s e w1, grid9 s → solvable s →
             S (count_nonzero s) = count_nonzero sudoku →
             ∃ r w2, rec s e w1 = Done r w2) →
  ∃ r w', while_indices rec k depth indices sudoku excluded_nums w = Done r w'.
Proof.
  intros Hg Hsolv Hsub Hk Hrec. revert indices excluded_nums w Hsub Hk.
  induction k as [|k IH]; intros indices excluded_nums w Hsub Hk.
  { destruct indices; [by eexists _, _|simpl in Hk; lia]. }
  destruct (decide (indices = [])) as [->|Hne]; [by eexists _, _|].
  rewrite while_indices_unfold by done.
  destruct (randrange_Done (length indices) w) as (i & Hi & Hrand).
  { by destruct indices. }
  rewrite bind_eq, Hrand. set (w1 := with_rng _ w).
  destruct (list_pop_Ok indices i Hi) as (c0 & Hc0 & Hpop).
  rewrite bind_eq. unfold lift at 1. rewrite Hpop.
  assert (Hlen : S (length (delete i indices)) = length indices).
  { rewrite length_delete by eauto. lia. }
  destruct (skip_excluded_Done (length (delete i indices)) c0
              (delete i indices) excluded_nums w1)
    as ([y x] & indices' & w2 & Hskip & Hc' & Hsub' & Hl'); [lia|].
  rewrite bind_eq, Hskip.
  assert (Hsub2 : ∀ c, c ∈ indices' → c ∈ nonzero_coords sudoku).
  { intros c Hc. by eapply Hsub, list_elem_of_delete_inv, Hsub'. }
  case_bool_decide as Hrest; [|apply IH; [done|lia]].
  assert (Hyx : (y, x) ∈ nonzero_coords sudoku).
  { apply Hsub. destruct Hc' as [->|Hin].
    - by eapply list_elem_of_lookup_2.
    - by eapply list_elem_of_delete_inv. }
  apply elem_of_nonzero_coords in Hyx as (n & Hget & Hn).
  destruct (get_cell_lt _ _ _ _ Hg Hget) as [Hy Hx].
  destruct (grid9_set sudoku y x 0 Hg Hy Hx) as [s0 Hs0].
  pose proof (set_cell_grid9 _ _ _ _ _ Hg Hs0) as Hg0.
  pose proof (solvable_clear _ _ _ _ Hsolv Hs0) as Hsolv0.
  pose proof (count_nonzero_clear _ _ _ _ _ Hget Hn Hs0) as Hcount.
  rewrite bind_eq. unfold lift at 1. rewrite Hget.
  rewrite bind_eq. unfold lift at 1. rewrite Hs0. rewrite bind_eq.
  destruct (unique_Done s0 depth w2 Hg0 Hsolv0) as (u & w3 & ->).
  rewrite bind_eq.
  assert (∃ nl w4, (if u then rec s0 excluded_nums else mret None) w3
                   = Done nl w4) as (nl & w4 & ->).
  { destruct u; [by apply Hrec|by eexists _, _]. }
  destruct nl as [g|]; [by eexists _, _|].
  rewrite bind_eq. unfold gets at 1. case_decide; [by eexists _, _|].
  rewrite bind_eq. unfold lift at 1.
  rewrite (set_set_cell _ _ _ _ _ _ Hs0), (set_cell_id _ _ _ _ Hget).
  apply IH; [done|lia].
Qed.

(** On a solvable 9x9 board [remove_numbers] returns (a grid or [None]):
    it raises nothing and stays within its recursion allowance. *)
Lemma remove_numbers_Done level board excluded w :
  grid9 board → solvable board → (count_nonzero board ≤ level)%nat →
  ∃ r w', remove_numbers level board excluded w = Done r w'.
Proof.
  revert board excluded w. induction level as [level IH] using lt_wf_ind.
  intros board excluded w Hg Hs Hl. rewrite remove_numbers_unfold.
  rewrite bind_eq. unfold gets at 1. case_decide; [|by eexists _, _].
  rewrite bind_eq. unfold gets at 1.
  apply while_indices_Done; [done..|].
  intros s e w1 Hgs Hss Hcount. destruct level as [|l]; [lia|].
  apply IH; [lia|done|done|lia].
Qed.

Lemma preserves_Done {A : Type} R (m : M A) w a w' :
  preserves R m → m w = Done a w' → R w w'.
Proof. intros H Hrun. specialize (H w). by rewrite Hrun in H. Qed.

Lemma full_count_nonzero board :
  grid9 board → full board → count_nonzero board = 81%nat.
Proof.
  intros Hg Hf. rewrite <-(grid9_cells board Hg). unfold count_nonzero, cells.
  assert (H : Forall (Forall (λ v, v ≠ 0)) board).
  { apply Forall_lookup. intros y row Hy. apply Forall_lookup. intros x v Hx.
    apply (Hf y x). apply get_cell_Ok. eauto. }
  clear Hg Hf. induction H as [|row b Hrow _ IH]; [done|].
  rewrite !fmap_cons. cbn [sum_list_with]. rewrite IH. f_equal. unfold id.
  clear IH. induction Hrow as [|v r Hv _ IHr]; [done|].
  rewrite filter_cons, decide_True by done. simpl. by rewrite IHr.
Qed.

Lemma randint_Done a b w :
  a ≤ b →
  ∃ v, a ≤ v ≤ b ∧ randint a b w = Done v (with_rng (next_rng (rng w)) w).
Proof.
  intros Hab. unfold randint.
  destruct (randrange_Done (Z.to_nat (b - a + 1)) w) as (k & Hk & Hrand); [lia|].
  exists (a + Z.of_nat k). split; [lia|]. by rewrite bind_eq, Hrand.
Qed.

Lemma bind_ret_unit (m : M unit) w : (m ≫= λ _, mret ()) w = m w.
Proof. rewrite bind_eq. by destruct (m w) as [[] w'|e w'|]. Qed.

Lemma choose_clues_eq difficulty w :
  choose_clues difficulty w =
  if decide (difficulty = "easy")
  then (c ← randint 40 50; modify (with_clues c)) w
  else if decide (difficulty = "medium")
  then (c ← randint 32 40; modify (with_clues c)) w
  else if decide (difficulty = "hard")
  then (c ← randint 25 32; modify (with_clues c)) w
  else Done () w.
Proof.
  unfold choose_clues.
  destruct (decide (difficulty = "easy")) as [->|He].
  { rewrite decide_False, decide_False by done. apply bind_ret_unit. }
  destruct (decide (difficulty = "medium")) as [->|Hm].
  { rewrite decide_False by done.
    apply (bind_ret_unit (c ← randint 32 40; modify (with_clues c))). }
  destruct (decide (difficulty = "hard")) as [->|Hh]; done.
Qed.

(** The clue target after the three tests on [difficulty]. *)
Lemma choose_clues_Done difficulty w :
  ∃ w1, choose_clues difficulty w = Done () w1 ∧
        (difficulty = "easy" → 40 ≤ clues w1 ≤ 50) ∧
        (difficulty = "medium" → 32 ≤ clues w1 ≤ 40) ∧
        (difficulty = "hard" → 25 ≤ clues w1 ≤ 32) ∧
        (difficulty ≠ "easy" → difficulty ≠ "medium" → difficulty ≠ "hard" →
         w1 = w).
Proof.
  rewrite choose_clues_eq.
  destruct (decide (difficulty = "easy")) as [->|He].
  { destruct (randint_Done 40 50 w) as (v & Hv & Hr); [lia|].
    eexists. rewrite bind_eq, Hr. split; [done|]. split_and!; done. }
  destruct (decide (difficulty = "medium")) as [->|Hm].
  { destruct (randint_Done 32 40 w) as (v & Hv & Hr); [lia|].
    eexists. rewrite bind_eq, Hr. split; [done|]. split_and!; done. }
  destruct (decide (difficulty = "hard")) as [->|Hh].
  { destruct (randint_Done 25 32 w) as (v & Hv & Hr); [lia|].
    eexists. rewrite bind_eq, Hr. split; [done|]. split_and!; done. }
  exists w. split; [done|]. split_and!; done.
Qed.

(** The empty board is solvable. *)
Lemma zeros99_solvable : solvable zeros99.
Proof. exists solved_grid. apply completion_b_spec. vm_compute. reflexivity. Qed.

(** The seed solve of [generate] always succeeds, and the seed is a
    full valid grid. *)
Lemma seed_solve w :
  ∃ w1 seed, init_solve zeros99 false w = Done () w1 ∧
             solution w1 = Some seed ∧ clues w1 = clues w ∧
             grid9 seed ∧ solvable seed ∧ count_nonzero seed = 81%nat.
Proof.
  assert (Hz : grid9 zeros99) by (by apply grid9_b_spec).
  destruct (init_solve_Done zeros99 w Hz) as (w1 & Hrun & _ & Hcl1 & Hfill & _).
  destruct (init_solve_solvable zeros99 w Hz zeros99_solvable)
    as (w1' & seed & Hrun' & Hsol & Hseed).
  assert (w1' = w1) as -> by congruence.
  pose proof Hseed as (Hgs & Hrs & Hfs & Hvs & _).
  exists w1, seed. split_and!; [done..| |by apply full_count_nonzero].
  exists seed. split_and!; [done..|]. by intros y x v.
Qed.

(** [generate] after the seed solve, in terms of the removal. *)
Lemma generate_board_eq w :
  ∃ w1 seed,
    clues w1 = clues w ∧ grid9 seed ∧ solvable seed ∧
    count_nonzero seed = 81%nat ∧
    generate_board w =
    match remove_numbers (count_nonzero seed) seed [] w1 with
    | Done (Some g) w2 => Done () (with_puzzle (Some g) w2)
    | Done None w2 => Raised TypeError (with_puzzle None w2)
    | Raised e w2 => Raised e w2
    | OutOfFuel => OutOfFuel
    end.
Proof.
  destruct (seed_solve w) as (w1 & seed & Hrun & Hsol & Hcl1 & Hgs & Hss & H81).
  exists w1, seed. split_and!; [done..|]. unfold generate_board.
  rewrite bind_eq, Hrun, bind_eq. unfold gets at 1. rewrite Hsol, bind_eq.
  by destruct (remove_numbers _ seed [] w1) as [[g|] w2|e w2|].
Qed.

(** What [generate] does once the target is settled: it either stores a
    9x9 puzzle with exactly the target number of clues and returns, or
    the removal ends with [None], which it stores before the redraw
    raises [TypeError]; the target is not touched. *)
Lemma generate_board_cases w :
  clues w ≤ 81 →
  match generate_board w with
  | Done _ w' =>
      ∃ g, puzzle w' = Some g ∧ grid9 g ∧
           Z.of_nat (count_nonzero g) = clues w ∧ clues w' = clues w
  | Raised e w' => e = TypeError ∧ puzzle w' = None ∧ clues w' = clues w
  | OutOfFuel => False
  end.
Proof.
  intros Hcl.
  destruct (generate_board_eq w) as (w1 & seed & Hcl1 & Hgs & Hss & H81 & ->).
  destruct (remove_numbers_Done (count_nonzero seed) seed [] w1 Hgs Hss
              ltac:(done)) as (r & w2 & Hrem).
  pose proof (preserves_Done _ _ _ _ _ (same_clues_remove_numbers _ _ _) Hrem)
    as Hcl2.
  unfold same_clues in Hcl2. rewrite Hrem. destruct r as [g|].
  - destruct (remove_numbers_count (count_nonzero seed) seed [] w1 g w2 Hgs
                ltac:(lia) Hrem) as [Hc Hg9].
    exists g. split_and!; [done..|lia|simpl; lia].
  - split_and!; [done..|simpl; lia].
Qed.

(** The same for any stored target.  Above 81 the seed grid is at or
    below the target from the start and is stored as it is, so the
    puzzle holds [min (target, 81)] clues. *)
Lemma generate_board_outcome w :
  (∃ w' g, generate_board w = Done () w' ∧ puzzle w' = Some g ∧ grid9 g ∧
           Z.of_nat (count_nonzero g) = Z.min (clues w) 81 ∧
           clues w' = clues w) ∨
  (∃ w', generate_board w = Raised TypeError w' ∧ puzzle w' = None ∧
         clues w' = clues w).
Proof.
  destruct (decide (clues w ≤ 81)) as [Hcl|Hcl].
  - pose proof (generate_board_cases w Hcl) as Hc.
    destruct (generate_board w) as [[] w'|e w'|]; [| |done].
    + destruct Hc as (g & Hp & Hg & Hcount & Hsame). left.
      exists w', g. split_and!; [done..|lia|done].
    + destruct Hc as (-> & Hp & Hsame). right. by exists w'.
  - destruct (generate_board_eq w) as (w1 & seed & Hcl1 & Hgs & _ & H81 & ->).
    rewrite remove_numbers_unfold, bind_eq. unfold gets at 1.
    rewrite decide_False by lia. left.
    exists (with_puzzle (Some seed) w1), seed. split_and!; [done..|lia|done].
Qed.

Lemma skip_excluded_nil k c indices w :
  skip_excluded k c indices [] w = Done (c, indices) w.
Proof.
  assert (E : bool_decide (c ∈ @nil (nat * nat)) = false).
  { apply bool_decide_eq_false_2. by intros ?%elem_of_nil. }
  destruct k; cbn [skip_excluded]; by rewrite E.
Qed.

(** A consequence of the guard [if indices:] dropping the candidate
    that was popped last: with a clue target of 0 and nothing excluded,
    [remove_numbers] never returns a grid for a board that holds a clue.
    The level with one clue left never tries its only candidate, and
    every failure above it overruns the cutoff. *)
Lemma remove_numbers_zero_target level board w g w' :
  clues w = 0 → (1 ≤ count_nonzero board)%nat →
  remove_numbers level board [] w ≠ Done (Some g) w'.
Proof.
  revert board w g w'. induction level as [level IH] using lt_wf_ind.
  intros board w g w' Hcl Hcount. rewrite remove_numbers_unfold.
  rewrite bind_eq. unfold gets at 1. rewrite decide_True by lia.
  rewrite bind_eq. unfold gets at 1.
  pose proof (nonzero_coords_length board) as Hlen.
  set (indices := nonzero_coords board) in *.
  destruct (length indices) as [|k] eqn:Hk; [lia|].
  assert (Hne : indices ≠ []) by (by intros E; rewrite E in Hk).
  rewrite while_indices_unfold by done. rewrite Hk.
  intros (i & w1 & Hrand & Hrun)%bind_Done.
  assert (Hcl1 : clues w1 = 0).
  { destruct (randrange_Done (S k) w) as (i' & _ & Hr); [done|].
    rewrite Hr in Hrand. by injection Hrand as _ <-. }
  apply bind_Done in Hrun as ([c indices1] & w1' & Hpop & Hrun).
  apply lift_Done in Hpop as [Hpop ->].
  unfold list_pop in Hpop. destruct (indices !! i) as [c'|] eqn:Hi; [|done].
  injection Hpop as -> <-.
  rewrite bind_eq, skip_excluded_nil in Hrun. destruct c as [y x].
  assert (Hlen1 : S (length (delete i indices)) = S k).
  { rewrite length_delete by eauto. lia. }
  revert Hrun. case_bool_decide as Hrest.
  2:{ rewrite Hrest. by destruct k. }
  assert (Hk1 : (1 ≤ k)%nat).
  { destruct (delete i indices); [done|]. simpl in Hlen1. lia. }
  intros (n & w2 & Hget & Hrun)%bind_Done.
  apply lift_Done in Hget as [Hget ->].
  apply bind_Done in Hrun as (s0 & w2 & Hs0 & Hrun).
  apply lift_Done in Hs0 as [Hs0 ->].
  assert (Hn : n ≠ 0).
  { assert (Hin : (y, x) ∈ indices) by (by eapply list_elem_of_lookup_2).
    apply elem_of_nonzero_coords in Hin as (n' & Hget' & Hn'). congruence. }
  pose proof (count_nonzero_clear _ _ _ _ _ Hget Hn Hs0) as Hc0.
  apply bind_Done in Hrun as (u & w3 & Hu & Hrun).
  pose proof (preserves_Done _ _ _ _ _ (same_clues_unique _ _) Hu) as Hcl3.
  apply bind_Done in Hrun as (nl & w4 & Hnl & Hrun).
  assert (nl = None ∧ clues w4 = 0) as [-> Hcl4].
  { unfold same_clues in Hcl3. destruct u.
    - destruct level as [|l]; [done|].
      pose proof (preserves_Done _ _ _ _ _
                    (same_clues_remove_numbers _ _ _) Hnl) as Hcl4.
      unfold same_clues in Hcl4. split; [|lia].
      destruct nl as [g'|]; [|done]. exfalso. revert Hnl.
      apply IH; [lia|lia|lia].
    - injection Hnl as <- <-. split; [done|lia]. }
  revert Hrun. rewrite bind_eq. unfold gets at 1. rewrite Hcl4.
  by rewrite decide_True by (simpl; lia).
Qed.

Lemma generate_board_same_clues : preserves same_clues generate_board.
Proof.
  assert (Ht : ∀ w1 w2 w3, same_clues w1 w2 → same_clues w2 w3 → same_clues w1 w3)
    by (unfold same_clues; congruence).
  unfold generate_board.
  apply preserves_bind; [done|apply same_clues_init_solve|]. intros _.
  apply preserves_bind; [done|by apply preserves_gets|]. intros s.
  apply preserves_bind; [done| |].
  { destruct s; [apply same_clues_remove_numbers|by apply preserves_raise]. }
  intros board. apply preserves_bind; [done|by intros w|]. intros _.
  by apply preserves_draw_puzzle.
Qed.

(** Hence, on the code as it is, a generation with the clue target 0
    always ends in the [TypeError] of the redraw, with no puzzle
    stored. *)
Lemma generate_board_zero_target w :
  clues w = 0 →
  ∃ w', generate_board w = Raised TypeError w' ∧ puzzle w' = None.
Proof.
  intros Hcl.
  destruct (generate_board_eq w) as (w1 & seed & Hcl1 & Hgs & Hss & H81 & ->).
  destruct (remove_numbers_Done (count_nonzero seed) seed [] w1 Hgs Hss
              ltac:(done)) as (r & w2 & Hrem).
  rewrite Hrem. destruct r as [g|]; [|by eexists].
  by destruct (remove_numbers_zero_target (count_nonzero seed) seed w1 g w2
                 ltac:(lia) ltac:(lia)).
Qed.

Lemma choose_clues_other difficulty w :
  difficulty ≠ "easy" → difficulty ≠ "medium" → difficulty ≠ "hard" →
  choose_clues difficulty w = Done () w.
Proof.
  intros He Hm Hh. rewrite choose_clues_eq. by rewrite !decide_False by done.
Qed.

Lemma generate_other difficulty w :
  difficulty ≠ "easy" → difficulty ≠ "medium" → difficulty ≠ "hard" →
  generate difficulty w = generate_board w.
Proof.
  intros He Hm Hh. unfold generate.
  by rewrite bind_eq, choose_clues_other by done.
Qed.

(** * Main results *)

(** ** The validator *)

(** C4 (validator correctness).  For every 9x9 board, every row and
    column in 0..8 and every value in 1..9 such that the cell
    [(y, x)] is empty, [can_place] returns (raises nothing), and it
    returns [True] exactly when the value occurs in no cell of row [y],
    no cell of column [x] and no cell of the 3x3 box with top-left
    corner [(y / 3 * 3, x / 3 * 3)]. *)
Theorem can_place_correct board y x value :
  grid9 board → (y < 9)%nat → (x < 9)%nat → 1 ≤ value ≤ 9 →
  get_cell board y x = Ok 0 →
  ∃ b, can_place y x value board = Ok b ∧
       (b = true ↔ ¬ in_row board y value ∧ ¬ in_col board x value ∧
                   ¬ in_box board y x value).
Proof. intros Hg Hy Hx _ _. by apply can_place_spec. Qed.

Lemma can_place_correct_witness :
  ∃ b, can_place 4 4 5 example_puzzle = Ok b ∧
       (b = true ↔ ¬ in_row example_puzzle 4 5 ∧ ¬ in_col example_puzzle 4 5 ∧
                   ¬ in_box example_puzzle 4 4 5).
Proof.
  apply (can_place_correct example_puzzle 4 4 5);
    [apply grid9_b_spec; reflexivity|lia|lia|lia|reflexivity].
Defined.

(** ** The solver *)

(** C1 as stated fails: the board of ones is 9x9, [solve] succeeds on
    it, and the grid it returns repeats 1 in every row, column and box. *)
Lemma solve_sound_counterexample :
  ∃ w' g, init_solve ones99 false (fresh rng0) = Done () w' ∧
          solution w' = Some g ∧ ¬ valid g.
Proof.
  exists (with_solution (Some ones99) (count_call (fresh rng0))), ones99.
  split_and!; [reflexivity..|].
  intros Hv.
  by destruct (Hv 0%nat 0%nat 0%nat 1%nat 1 eq_refl eq_refl
                 ltac:(done) ltac:(by left)).
Qed.

(** C1, amended (solver soundness).  For every 9x9 input board with
    cells in 0..9 whose non-zero cells satisfy the validity invariant:
    when [solve] succeeds, every non-zero cell of the input holds the
    same value in the returned grid, and the returned grid is 9x9, fully
    populated with values 1..9, and valid (no value repeated in a row,
    a column or a 3x3 box). *)
Theorem solve_sound board w w' g :
  grid9 board → in_range board → valid board →
  init_solve board false w = Done () w' → solution w' = Some g →
  extends board g ∧ grid9 g ∧
  (∀ y x, (y < 9)%nat → (x < 9)%nat → ∃ v, get_cell g y x = Ok v ∧ 1 ≤ v ≤ 9) ∧
  valid g.
Proof.
  intros Hg Hr Hv Hrun Hsol.
  destruct (init_solve_Done board w Hg) as (w2 & Hrun2 & _ & _ & Hfill & _).
  assert (w2 = w') as -> by congruence.
  destruct (Hfill g Hsol) as (Hg9 & Hfull & Hext & Hval & Hran).
  split_and!; [done..| |by apply Hval].
  intros y x Hy Hx. destruct (grid9_get g y x Hg9 Hy Hx) as [v Hget].
  exists v. split; [done|]. specialize (Hran Hr _ _ _ Hget).
  specialize (Hfull _ _ _ Hget). lia.
Qed.

Lemma solve_sound_witness :
  extends example_puzzle solved_grid ∧ grid9 solved_grid ∧
  (∀ y x, (y < 9)%nat → (x < 9)%nat →
          ∃ v, get_cell solved_grid y x = Ok v ∧ 1 ≤ v ≤ 9) ∧
  valid solved_grid.
Proof.
  eapply (solve_sound example_puzzle (fresh rng0) _ solved_grid);
    [apply grid9_b_spec; reflexivity
    |apply in_range_b_spec; vm_compute; reflexivity
    |apply valid_b_spec; vm_compute; reflexivity
    |vm_compute; reflexivity
    |reflexivity].
Defined.

(** C6 (solver termination).  For every 9x9 input board [solve]
    returns, and it does so with at most 81 nested recursive calls
    below the initial call (one per cell): allowed 81 levels, it never
    runs into the limit. *)
Theorem solve_terminates board w :
  grid9 board → ∃ w', solve 81 board w = Done () w'.
Proof.
  intros Hg. destruct (solve_Done 81 board w Hg) as (w' & Hrun & _); [|eauto].
  rewrite <-(grid9_cells board Hg). apply count_zero_le_cells.
Qed.

Lemma solve_terminates_witness :
  ∃ w', solve 81 zeros99 (fresh rng0) = Done () w'.
Proof. apply (solve_terminates zeros99 (fresh rng0)), grid9_b_spec. reflexivity. Defined.

(** The bound is reached: on the empty board an allowance of 80 levels
    is not enough. *)
Example solve_depth_81_reached : solve 80 zeros99 (fresh rng0) = OutOfFuel.
Proof. vm_compute. reflexivity. Qed.

(** C8 (full-grid passthrough).  For every 9x9 board in which no cell
    is 0, [solve] records the board itself as the solution, consulting
    neither the validator nor the random source: the state changes in
    the solution slot only.  Nothing is assumed about validity. *)
Theorem solve_full_passthrough board depth w :
  grid9 board → full board →
  solve depth board w = Done () (with_solution (Some board) w) ∧
  init_solve board false w =
    Done () (with_solution (Some board) (count_call w)).
Proof. intros _ Hf. split; [by apply solve_full|by apply init_solve_full]. Qed.

Lemma solve_full_passthrough_witness :
  (solve 81 ones99 (fresh rng0) =
     Done () (with_solution (Some ones99) (fresh rng0)) ∧
   init_solve ones99 false (fresh rng0) =
     Done () (with_solution (Some ones99) (count_call (fresh rng0)))) ∧
  ¬ valid ones99.
Proof.
  split.
  - apply (solve_full_passthrough ones99 81 (fresh rng0));
      [apply grid9_b_spec; reflexivity|apply full_b_spec; reflexivity].
  - intros Hv.
    by destruct (Hv 0%nat 0%nat 0%nat 1%nat 1 eq_refl eq_refl
                   ltac:(done) ltac:(by left)).
Defined.

(** C7 as stated fails: a 9x9 board holding 42 is not rejected; the
    search runs, fills the empty cell and returns the board with the 42
    in place. *)
Lemma invalid_input_counterexample :
  get_cell bad42 0 0 = Ok 42 ∧
  ∃ w', init_solve bad42 false (fresh rng0) = Done () w' ∧
        solution w' = Some bad42_filled.
Proof. split; [reflexivity|]. eexists. split; vm_compute; reflexivity. Qed.

(** C7, amended.  [solve] performs no validation.  For every 9x9 input
    board, whatever integers its cells hold, it raises no error and
    runs the search; a grid it returns is 9x9, has no empty cell and
    keeps every non-zero input cell as it is, also the values outside
    1..9.  A board of any shape without empty cells is likewise accepted
    and recorded as the solution. *)
Theorem solve_never_rejects board w :
  grid9 board →
  (∃ w', init_solve board false w = Done () w' ∧
         ∀ g, solution w' = Some g → grid9 g ∧ full g ∧ extends board g) ∧
  (∀ other : Grid, full other →
     init_solve other false w =
       Done () (with_solution (Some other) (count_call w))).
Proof.
  intros Hg. split.
  - destruct (init_solve_Done board w Hg) as (w' & Hrun & _ & _ & Hfill & _).
    exists w'. split; [done|]. intros g Hsol.
    destruct (Hfill g Hsol) as (? & ? & ? & _). done.
  - intros other. apply init_solve_full.
Qed.

Lemma solve_never_rejects_witness :
  (∃ w', init_solve bad42 false (fresh rng0) = Done () w' ∧
         ∀ g, solution w' = Some g → grid9 g ∧ full g ∧ extends bad42 g) ∧
  (∀ other : Grid, full other →
     init_solve other false (fresh rng0) =
       Done () (with_solution (Some other) (count_call (fresh rng0)))).
Proof. apply (solve_never_rejects bad42 (fresh rng0)), grid9_b_spec. reflexivity. Defined.

(** ** The uniqueness oracle *)

(** C3 (uniqueness oracle procedure).  For every solvable 9x9 board and
    every [depth >= 1], [unique] first obtains the reference solution
    [ref] with one solver run, then makes [k <= depth] further runs (run
    [j] ends in the state [after_solves (1 + j)]), comparing each result
    cell by cell with [ref]: every run before the last one gave [ref];
    it returns [False] exactly when run [k] gave another grid, and no
    run follows that one; it returns [True] exactly when [k = depth]
    and all [depth] runs gave [ref].  [solve_calls] counts the runs. *)
Theorem unique_procedure board depth w :
  grid9 board → solvable board → (1 ≤ depth)%nat →
  ∃ ref b w' k,
    solution (after_solves 1 board w) = Some ref ∧
    unique board depth w = Done b w' ∧
    (k ≤ depth)%nat ∧
    w' = after_solves (1 + k) board w ∧
    solve_calls w' = (solve_calls w + 1 + k)%nat ∧
    (∀ j, (1 ≤ j < k)%nat →
          solution (after_solves (1 + j) board w) = Some ref) ∧
    (b = false →
       (1 ≤ k)%nat ∧ solution (after_solves (1 + k) board w) ≠ Some ref) ∧
    (b = true → k = depth) ∧
    (b = true ↔
     ∀ j, (1 ≤ j ≤ depth)%nat →
          solution (after_solves (1 + j) board w) = Some ref).
Proof.
  intros Hg Hs Hd.
  destruct (init_solve_solvable board w Hg Hs) as (w1 & ref & Hrun & Hsol & Href).
  destruct (unique_loop_spec board ref depth w1 Hg Hs Href)
    as (b & w' & k & Hloop & Hk & Hw' & Hbefore & Hf & Ht).
  assert (Hshift : ∀ j, after_solves (1 + j) board w = after_solves j board w1).
  { intros j. by apply after_solves_S. }
  exists ref, b, w', k. split_and!.
  - by rewrite (after_solves_S 0 _ _ _ Hrun).
  - unfold unique. rewrite bind_eq, Hrun, bind_eq. unfold gets at 1.
    by rewrite Hsol.
  - done.
  - by rewrite Hshift.
  - rewrite Hw', <-Hshift, after_solves_calls by done. lia.
  - intros j Hj. rewrite Hshift. by apply Hbefore.
  - intros Hb. rewrite Hshift. by apply Hf.
  - intros Hb. by destruct (Ht Hb).
  - split.
    + intros Hb j Hj. rewrite Hshift. destruct (Ht Hb) as [_ Hall]. by apply Hall.
    + intros Hall. destruct b; [done|]. destruct (Hf eq_refl) as [Hk1 Hne].
      destruct Hne. rewrite <-Hshift. apply Hall. lia.
Qed.

Lemma unique_procedure_witness :
  ∃ ref b w' k,
    solution (after_solves 1 example_puzzle (fresh rng0)) = Some ref ∧
    unique example_puzzle 5 (fresh rng0) = Done b w' ∧
    (k ≤ 5)%nat ∧
    w' = after_solves (1 + k) example_puzzle (fresh rng0) ∧
    solve_calls w' = (solve_calls (fresh rng0) + 1 + k)%nat ∧
    (∀ j, (1 ≤ j < k)%nat →
          solution (after_solves (1 + j) example_puzzle (fresh rng0)) = Some ref) ∧
    (b = false →
       (1 ≤ k)%nat ∧
       solution (after_solves (1 + k) example_puzzle (fresh rng0)) ≠ Some ref) ∧
    (b = true → k = 5%nat) ∧
    (b = true ↔
     ∀ j, (1 ≤ j ≤ 5)%nat →
          solution (after_solves (1 + j) example_puzzle (fresh rng0)) = Some ref).
Proof.
  apply (unique_procedure example_puzzle 5 (fresh rng0));
    [apply grid9_b_spec; reflexivity
    |exists solved_grid; apply completion_b_spec; vm_compute; reflexivity
    |lia].
Defined.

(** ** The generator *)

(** [generate] never exhausts the recursion allowances of the model: it
    returns or raises (by [generate_board_cases], the [TypeError] of the
    redraw after a removal that ended with [None]). *)
Lemma generate_no_oof difficulty w :
  difficulty = "easy" ∨ difficulty = "medium" ∨ difficulty = "hard" ∨
  clues w ≤ 81 →
  generate difficulty w ≠ OutOfFuel.
Proof.
  intros Hd. unfold generate.
  destruct (choose_clues_Done difficulty w) as (w1 & Hch & He & Hm & Hh & Hu).
  rewrite bind_eq, Hch.
  assert (Hcl : clues w1 ≤ 81).
  { destruct (decide (difficulty = "easy")) as [E|E]; [specialize (He E); lia|].
    destruct (decide (difficulty = "medium")) as [E'|E']; [specialize (Hm E'); lia|].
    destruct (decide (difficulty = "hard")) as [E''|E'']; [specialize (Hh E''); lia|].
    rewrite (Hu E E' E''). by destruct Hd as [?|[?|[?|?]]]. }
  pose proof (generate_board_cases w1 Hcl) as Hc.
  by destruct (generate_board w1).
Qed.

(** C2 (generator clue-count contract).  For every difficulty in
    {easy, medium, hard}: when [generate] returns, it has stored a 9x9
    puzzle whose number of non-zero cells is the clue target it drew,
    inside the tier's inclusive range: [40,50] for easy, [32,40] for
    medium, [25,32] for hard.  (Otherwise [generate] raises and stores
    no puzzle; see [generate_no_oof].) *)
Theorem generate_clue_count difficulty w w' :
  difficulty = "easy" ∨ difficulty = "medium" ∨ difficulty = "hard" →
  generate difficulty w = Done () w' →
  ∃ g, puzzle w' = Some g ∧ grid9 g ∧
       Z.of_nat (count_nonzero g) = clues w' ∧
       (difficulty = "easy" → 40 ≤ Z.of_nat (count_nonzero g) ≤ 50) ∧
       (difficulty = "medium" → 32 ≤ Z.of_nat (count_nonzero g) ≤ 40) ∧
       (difficulty = "hard" → 25 ≤ Z.of_nat (count_nonzero g) ≤ 32).
Proof.
  intros Hd. unfold generate.
  destruct (choose_clues_Done difficulty w) as (w1 & Hch & He & Hm & Hh & _).
  rewrite bind_eq, Hch. intros Hrun.
  assert (Hcl : clues w1 ≤ 81).
  { destruct Hd as [E|[E|E]];
      [specialize (He E)|specialize (Hm E)|specialize (Hh E)]; lia. }
  pose proof (generate_board_cases w1 Hcl) as Hc. rewrite Hrun in Hc.
  destruct Hc as (g & Hp & Hg & Hcount & Hsame). exists g.
  split_and!; [done|done|lia| | |].
  - intros E. specialize (He E). lia.
  - intros E. specialize (Hm E). lia.
  - intros E. specialize (Hh E). lia.
Qed.

Lemma generate_clue_count_witness :
  ∃ w' g, generate "easy" (fresh rng0) = Done () w' ∧
          puzzle w' = Some g ∧ 40 ≤ Z.of_nat (count_nonzero g) ≤ 50.
Proof.
  eexists.
  assert (Hrun : generate "easy" (fresh rng0) = Done () _)
    by (vm_compute; reflexivity).
  destruct (generate_clue_count "easy" (fresh rng0) _ ltac:(by left) Hrun)
    as (g & Hp & _ & _ & He & _).
  exists g. split; [exact Hrun|]. split; [exact Hp|by apply He].
Defined.

(** C9 (below-target passthrough).  For every board whose number of
    non-zero cells is at most the current clue target (equal or strictly
    less), [remove_numbers] returns the board as it is, at once: no
    random draw, no solver run, no change of state. *)
Theorem remove_numbers_passthrough level board excluded w :
  Z.of_nat (count_nonzero board) ≤ clues w →
  remove_numbers level board excluded w = Done (Some board) w.
Proof.
  intros H. rewrite remove_numbers_unfold, bind_eq. unfold gets at 1.
  by rewrite decide_False by lia.
Qed.

Lemma remove_numbers_passthrough_witness :
  Z.of_nat (count_nonzero board41) < clues (with_clues 50 (fresh rng0)) ∧
  remove_numbers 41 board41 [] (with_clues 50 (fresh rng0)) =
    Done (Some board41) (with_clues 50 (fresh rng0)).
Proof.
  split; [by vm_compute|].
  apply (remove_numbers_passthrough 41 board41 [] (with_clues 50 (fresh rng0))).
  by vm_compute.
Defined.

(** C10 as stated fails: [generate] with an unrecognized difficulty
    does raise.  On a generator that has never run, with the random
    source whose k-th draw is k, the removal dead-ends: 44 cells are
    removed, the board left by the 45th removal (36 clues) is found
    ambiguous by the oracle at its second solve, and with the target 0
    the first exclusion already overruns the cutoff
    [len(excluded_nums) > self.clues], at this level and at each level
    above.  [remove_numbers] returns [None], [None] is stored as the
    puzzle and the final redraw fails on [None - None].  The call makes
    1 + 44 * 6 + 2 = 267 solver runs; every candidate it pops leaves
    other coordinates in [indices]. *)
Lemma generate_unrecognized_counterexample :
  ∃ w', generate "expert" (fresh rng_id) = Raised TypeError w' ∧
        puzzle w' = None ∧ clues w' = 0 ∧ solve_calls w' = 267%nat.
Proof. eexists. split_and!; [vm_compute; reflexivity|reflexivity..]. Qed.

(** C10, amended (stale clue target).  For every difficulty string
    outside {easy, medium, hard}, [generate] does not check the
    argument: the three tests draw nothing and store nothing, and the
    generation runs with the clue target stored before the call, for
    every stored target and every random source.  The call ends in one
    of two ways, and the target is the same afterwards in both: it
    stores a 9x9 puzzle with exactly that many clues (all 81 when the
    stored target is above 81) and returns; or the removal ends with
    [None], [None] is stored as the puzzle and the redraw raises
    [TypeError]. *)
Theorem generate_unrecognized difficulty w :
  difficulty ≠ "easy" → difficulty ≠ "medium" → difficulty ≠ "hard" →
  choose_clues difficulty w = Done () w ∧
  generate difficulty w = generate_board w ∧
  ((∃ w' g, generate difficulty w = Done () w' ∧ puzzle w' = Some g ∧
            grid9 g ∧ Z.of_nat (count_nonzero g) = Z.min (clues w) 81 ∧
            clues w' = clues w) ∨
   (∃ w', generate difficulty w = Raised TypeError w' ∧ puzzle w' = None ∧
          clues w' = clues w)).
Proof.
  intros He Hm Hh.
  rewrite (generate_other difficulty w He Hm Hh).
  split_and!; [by apply choose_clues_other|done|].
  apply generate_board_outcome.
Qed.

Lemma generate_unrecognized_witness :
  ∃ w' g, generate "expert" (with_clues 50 (fresh rng_id)) = Done () w' ∧
          puzzle w' = Some g ∧ grid9 g ∧
          Z.of_nat (count_nonzero g) = 50 ∧ clues w' = 50.
Proof.
  eexists.
  assert (Hrun : generate "expert" (with_clues 50 (fresh rng_id)) = Done () _)
    by (vm_compute; reflexivity).
  destruct (generate_unrecognized "expert" (with_clues 50 (fresh rng_id))
              ltac:(done) ltac:(done) ltac:(done))
    as (_ & _ & [(w' & g & Hrun' & Hp & Hg & Hc & Hcl)|(w' & Hrun' & _)]).
  - rewrite Hrun in Hrun'. injection Hrun' as <-.
    exists g. split; [exact Hrun|]. split; [exact Hp|].
    split; [exact Hg|]. split; [exact Hc|exact Hcl].
  - rewrite Hrun in Hrun'. discriminate Hrun'.
Defined.

(** C5 fails on the code: the candidate popped last is never tried.
    Here the board has 41 clues, the target is 40 and 40 clue
    coordinates are excluded (not more than the target, so the cutoff
    has not fired); the one clue left, [(4, 4)], is a candidate.  The
    call pops the 40 excluded coordinates, pops [(4, 4)] when nothing is
    left behind it, takes that for exhaustion and returns [None]: no
    solver run was made, so the candidate was never tested. *)
Example remove_numbers_skips_last_candidate :
  let w := with_clues 40 (fresh rng0) in
  (4, 4)%nat ∈ nonzero_coords board41 ∧ ((4, 4)%nat ∉ excluded40) ∧
  Z.of_nat (count_nonzero board41) > clues w ∧
  Z.of_nat (length excluded40) ≤ clues w ∧
  ∃ w', remove_numbers 41 board41 excluded40 w = Done None w' ∧
        solve_calls w' = solve_calls w.
Proof.
  split_and!.
  - apply elem_of_nonzero_coords. exists 5. by vm_compute.
  - apply (bool_decide_unpack _). by vm_compute.
  - by vm_compute.
  - by vm_compute.
  - eexists. split; vm_compute; reflexivity.
Qed.

(** * Further properties of the engine *)

(** ** The solver: completeness and failure *)

(** X1 (solver completeness).  On every 9x9 board that has a valid
    completion, and for every random source, [solve] succeeds, and the
    grid it records is a valid completion of the board. *)
Theorem solve_complete board w :
  grid9 board → solvable board →
  ∃ w' g, init_solve board false w = Done () w' ∧ solution w' = Some g ∧
          completion board g.
Proof. apply init_solve_solvable. Qed.

Lemma solve_complete_witness :
  ∃ w' g, init_solve example_puzzle false (fresh rng_id) = Done () w' ∧
          solution w' = Some g ∧ completion example_puzzle g.
Proof.
  apply (solve_complete example_puzzle (fresh rng_id));
    [apply grid9_b_spec; reflexivity
    |exists solved_grid; apply completion_b_spec; vm_compute; reflexivity].
Defined.

(** X2 (unsolvable board).  On a valid 9x9 board with cells in 0..9 that
    has no valid completion, [init_solve] returns normally and leaves
    [Solver.solution] at [None], whatever solution an earlier run had
    recorded: failure is no exception, and no stale result survives. *)
Theorem solve_unsolvable board w :
  grid9 board → in_range board → valid board → ¬ solvable board →
  ∃ w', init_solve board false w = Done () w' ∧ solution w' = None.
Proof.
  intros Hg Hr Hv Hns.
  destruct (init_solve_Done board w Hg) as (w' & Hrun & _ & _ & Hfill & _).
  exists w'. split; [done|].
  destruct (solution w') as [g|] eqn:Hsol; [|done].
  destruct Hns. exists g. apply filled_from_completion; auto.
Qed.

Lemma dead_end_unsolvable : ¬ solvable dead_end_board.
Proof.
  intros (c & Hg & Hr & Hf & Hv & Hext).
  destruct (grid9_get c 0 0 Hg) as [v Hget]; [lia..|].
  pose proof (Hr _ _ _ Hget) as Hrange. pose proof (Hf _ _ _ Hget) as Hnz.
  assert (Hrow : ∀ x, (1 ≤ x < 9)%nat → v ≠ Z.of_nat x).
  { intros x Hx E.
    assert (Hc : get_cell c 0 x = Ok (Z.of_nat x)).
    { apply Hext; [|lia].
      destruct x as [|[|[|[|[|[|[|[|[|x]]]]]]]]]; try lia; reflexivity. }
    rewrite <-E in Hc.
    destruct (Hv 0%nat 0%nat 0%nat x v Hget Hc Hnz ltac:(by left)). lia. }
  assert (Hnine : v ≠ 9).
  { intros ->. assert (Hc : get_cell c 1 0 = Ok 9) by (by apply Hext).
    destruct (Hv 0%nat 0%nat 1%nat 0%nat 9 Hget Hc Hnz
                ltac:(by right; left)). lia. }
  assert (Hx : (1 ≤ Z.to_nat v < 9)%nat) by lia.
  apply (Hrow (Z.to_nat v) Hx). lia.
Qed.

Lemma solve_unsolvable_witness :
  ∃ w', init_solve dead_end_board false
          (with_solution (Some solved_grid) (fresh rng_id)) = Done () w' ∧
        solution w' = None.
Proof.
  apply (solve_unsolvable dead_end_board);
    [apply grid9_b_spec; reflexivity
    |apply in_range_b_spec; vm_compute; reflexivity
    |apply valid_b_spec; vm_compute; reflexivity
    |apply dead_end_unsolvable].
Defined.

(** ** The oracle: what its answers mean *)

Lemma after_solves_solution k board w :
  grid9 board → solvable board → (1 ≤ k)%nat →
  ∃ s, solution (after_solves k board w) = Some s ∧ completion board s.
Proof.
  intros Hg Hs. revert w. induction k as [|k IH]; intros w Hk; [lia|].
  destruct (init_solve_solvable board w Hg Hs) as (w1 & s & Hrun & Hsol & Hcs).
  rewrite (after_solves_S _ _ _ _ Hrun).
  destruct k as [|k]; [by exists s|]. apply IH. lia.
Qed.

Lemma unique_false_two_completions board depth w w' :
  grid9 board → solvable board → unique board depth w = Done false w' →
  ∃ c1 c2, completion board c1 ∧ completion board c2 ∧ c1 ≠ c2.
Proof.
  intros Hg Hs Hrun.
  destruct (init_solve_solvable board w Hg Hs) as (w1 & ref & Hrun1 & Hsol & Href).
  destruct (unique_loop_spec board ref depth w1 Hg Hs Href)
    as (b & w2 & k & Hloop & _ & _ & _ & Hf & _).
  unfold unique in Hrun. rewrite bind_eq, Hrun1, bind_eq in Hrun.
  unfold gets at 1 in Hrun. rewrite Hsol, Hloop in Hrun.
  injection Hrun as -> _. destruct (Hf eq_refl) as [Hk Hne].
  destruct (after_solves_solution k board w1 Hg Hs Hk) as (s & Hs1 & Hcs).
  exists ref, s. split_and!; [done..|]. intros ->. by rewrite Hs1 in Hne.
Qed.

Lemma unique_true_of_single board c depth w :
  grid9 board → completion board c →
  (∀ c', completion board c' → c' = c) →
  ∃ w', unique board depth w = Done true w'.
Proof.
  intros Hg Hc Hone.
  destruct (unique_Done board depth w Hg) as (b & w' & Hrun); [by exists c|].
  exists w'. destruct b; [done|].
  destruct (unique_false_two_completions board depth w w' Hg) as
    (c1 & c2 & H1 & H2 & Hne); [by exists c|done|].
  destruct Hne. by rewrite (Hone c1 H1), (Hone c2 H2).
Qed.

(** X3 (a "not unique" answer is always right).  On a solvable 9x9
    board, whenever [unique] returns [False] the board really has two
    different valid completions: the oracle errs only towards "unique". *)
Theorem unique_false_sound board depth w w' :
  grid9 board → solvable board → unique board depth w = Done false w' →
  ∃ c1 c2, completion board c1 ∧ completion board c2 ∧ c1 ≠ c2.
Proof. apply unique_false_two_completions. Qed.

Lemma unique_false_sound_witness :
  ∃ c1 c2, completion board41 c1 ∧ completion board41 c2 ∧ c1 ≠ c2.
Proof.
  eapply (unique_false_sound board41 5 (fresh rng_id));
    [apply grid9_b_spec; reflexivity
    |exists solved_grid; apply completion_b_spec; vm_compute; reflexivity
    |vm_compute; reflexivity].
Defined.

(** X4 (no false alarm on a truly unique puzzle).  On a 9x9 board with
    exactly one valid completion, [unique] returns [True] for every
    depth and every random source. *)
Theorem unique_true_when_unique board c depth w :
  grid9 board → completion board c →
  (∀ c', completion board c' → c' = c) →
  ∃ w', unique board depth w = Done true w'.
Proof. apply unique_true_of_single. Qed.

(** A row of a full valid grid holds every value 1..9. *)
Lemma full_row_has_value g y v :
  grid9 g → in_range g → full g → valid g → (y < 9)%nat → 1 ≤ v ≤ 9 →
  ∃ x, get_cell g y x = Ok v.
Proof.
  intros Hg Hr Hf Hv Hy Hval.
  destruct (lookup_lt_is_Some_2 g y) as [row Hrow]; [destruct Hg; lia|].
  pose proof (grid9_row _ _ _ Hg Hrow) as Hlen.
  assert (Hcell : ∀ x n, row !! x = Some n → get_cell g y x = Ok n).
  { intros x n Hx. apply get_cell_Ok. eauto. }
  assert (Hnd : NoDup row).
  { apply NoDup_alt. intros i j n Hi Hj.
    destruct (Hv y i y j n (Hcell _ _ Hi) (Hcell _ _ Hj)) as [_ ?];
      [by eapply Hf, Hcell|by left|done]. }
  assert (Hsub : row ⊆+ (Z.of_nat <$> seq 1 9)).
  { apply NoDup_submseteq; [done|]. intros n [x Hx]%list_elem_of_lookup.
    apply numbers_1_9. pose proof (Hr _ _ _ (Hcell _ _ Hx)).
    pose proof (Hf _ _ _ (Hcell _ _ Hx)). lia. }
  apply submseteq_length_Permutation in Hsub;
    [|by rewrite Hlen, length_fmap, length_seq].
  assert (Hin : v ∈ row) by (rewrite Hsub; by apply numbers_1_9).
  apply list_elem_of_lookup in Hin as [x Hx]. exists x. by apply Hcell.
Qed.

Lemma grid9_ext a b :
  grid9 a → grid9 b →
  (∀ y x, (y < 9)%nat → (x < 9)%nat → get_cell a y x = get_cell b y x) →
  a = b.
Proof.
  intros Ha Hb Heq. apply list_eq. intros y.
  destruct (decide (y < 9)%nat) as [Hy|Hy].
  - destruct (lookup_lt_is_Some_2 a y) as [ra Hra]; [destruct Ha; lia|].
    destruct (lookup_lt_is_Some_2 b y) as [rb Hrb]; [destruct Hb; lia|].
    rewrite Hra, Hrb. f_equal. apply list_eq. intros x.
    pose proof (grid9_row _ _ _ Ha Hra) as Hla.
    pose proof (grid9_row _ _ _ Hb Hrb) as Hlb.
    destruct (decide (x < 9)%nat) as [Hx|Hx].
    + specialize (Heq y x Hy Hx). unfold get_cell in Heq.
      rewrite Hra, Hrb in Heq.
      destruct (lookup_lt_is_Some_2 ra x) as [na Hna]; [lia|].
      destruct (lookup_lt_is_Some_2 rb x) as [nb Hnb]; [lia|].
      rewrite Hna, Hnb in *. congruence.
    + rewrite !lookup_ge_None_2 by lia. done.
  - destruct Ha as [Ha _], Hb as [Hb _]. rewrite !lookup_ge_None_2 by lia. done.
Qed.

(** A full valid grid with one cell emptied has that grid as its only
    valid completion. *)
Lemma one_removal_single g y x board :
  grid9 g → in_range g → full g → valid g → set_cell g y x 0 = Ok board →
  completion board g ∧ ∀ c, completion board c → c = g.
Proof.
  intros Hg Hr Hf Hv Hset.
  destruct (set_cell_lt _ _ _ _ _ Hg Hset) as [Hy Hx].
  assert (Hoff : ∀ y' x', (y', x') ≠ (y, x) →
            get_cell board y' x' = get_cell g y' x').
  { intros y' x' Hne. by apply (get_set_cell_ne _ _ _ _ _ _ _ Hset). }
  split.
  { split_and!; [done..|]. intros y' x' v.
    rewrite (get_set_cell _ _ _ _ _ _ _ Hset). by case_decide; [intros [= <-]|]. }
  intros c (Hgc & Hrc & Hfc & Hvc & Hext).
  assert (Hsame : ∀ y' x', (y' < 9)%nat → (x' < 9)%nat → (y', x') ≠ (y, x) →
            get_cell c y' x' = get_cell g y' x').
  { intros y' x' Hy' Hx' Hne. destruct (grid9_get g y' x' Hg Hy' Hx') as [n Hn].
    rewrite Hn. apply Hext; [by rewrite Hoff|by eapply Hf]. }
  apply grid9_ext; [done..|]. intros y' x' Hy' Hx'.
  destruct (decide ((y', x') = (y, x))) as [[= -> ->]|Hne]; [|by apply Hsame].
  destruct (grid9_get c y x Hgc Hy Hx) as [v' Hv'].
  destruct (grid9_get g y x Hg Hy Hx) as [v Hvg]. rewrite Hv', Hvg. f_equal.
  destruct (decide (v' = v)) as [|Hdiff]; [done|]. exfalso.
  pose proof (Hrc _ _ _ Hv'). pose proof (Hfc _ _ _ Hv') as Hnz.
  destruct (full_row_has_value g y v' Hg Hr Hf Hv Hy ltac:(lia)) as [x2 Hx2g].
  destruct (get_cell_lt _ _ _ _ Hg Hx2g) as [_ Hx2].
  assert (Hne : (y, x2) ≠ (y, x)) by (intros [= ->]; congruence).
  pose proof (Hsame y x2 Hy Hx2 Hne) as Hc'. rewrite Hx2g in Hc'.
  destruct (Hvc y x y x2 v' Hv' Hc' Hnz ltac:(by left)) as [_ ->]. by apply Hne.
Qed.

Lemma unique_true_when_unique_witness :
  ∃ w', unique one_blank 5 (fresh rng_id) = Done true w'.
Proof.
  apply (unique_true_when_unique one_blank solved_grid 5 (fresh rng_id));
    [apply grid9_b_spec; reflexivity
    |apply completion_b_spec; vm_compute; reflexivity
    |apply (one_removal_single solved_grid 0 0 one_blank);
       [apply grid9_b_spec; reflexivity
       |apply in_range_b_spec; vm_compute; reflexivity
       |apply full_b_spec; vm_compute; reflexivity
       |apply valid_b_spec; vm_compute; reflexivity
       |reflexivity]].
Defined.

(** X5 (one clue removed from a solved grid).  Emptying any single cell
    of a full valid 9x9 grid gives a board on which [unique] returns
    [True], for every depth and every random source: the first removal
    of the generator can never be refused. *)
Theorem unique_after_one_removal g y x board depth w :
  grid9 g → in_range g → full g → valid g → set_cell g y x 0 = Ok board →
  ∃ w', unique board depth w = Done true w'.
Proof.
  intros Hg Hr Hf Hv Hset.
  destruct (one_removal_single g y x board Hg Hr Hf Hv Hset) as [Hc Hone].
  apply (unique_true_of_single board g); [by eapply set_cell_grid9|done..].
Qed.

Lemma unique_after_one_removal_witness :
  ∃ w', unique one_blank 12 (fresh rng_id) = Done true w'.
Proof.
  apply (unique_after_one_removal solved_grid 0 0 one_blank 12 (fresh rng_id));
    [apply grid9_b_spec; reflexivity
    |apply in_range_b_spec; vm_compute; reflexivity
    |apply full_b_spec; vm_compute; reflexivity
    |apply valid_b_spec; vm_compute; reflexivity
    |reflexivity].
Defined.

(** X6 (oracle on an unsolvable board).  On a valid 9x9 board with
    cells in 0..9 and no valid completion, [unique] with [depth >= 1]
    raises [TypeError] (the subtraction [None - None]) after exactly two
    solver runs; it never answers. *)
Theorem unique_unsolvable_raises board depth w :
  grid9 board → in_range board → valid board → ¬ solvable board →
  (1 ≤ depth)%nat →
  ∃ w', unique board depth w = Raised TypeError w' ∧
        solve_calls w' = (solve_calls w + 2)%nat.
Proof.
  intros Hg Hr Hv Hns Hd.
  destruct (init_solve_Done board w Hg) as (w1 & Hrun1 & Hc1 & _ & Hfill1 & _).
  assert (Hsol1 : solution w1 = None).
  { destruct (solution w1) as [g|] eqn:E; [|done]. destruct Hns. exists g.
    apply filled_from_completion; auto. }
  destruct (init_solve_Done board w1 Hg) as (w2 & Hrun2 & Hc2 & _ & Hfill2 & _).
  assert (Hsol2 : solution w2 = None).
  { destruct (solution w2) as [g|] eqn:E; [|done]. destruct Hns. exists g.
    apply filled_from_completion; auto. }
  exists w2. split; [|lia].
  unfold unique. rewrite bind_eq, Hrun1, bind_eq. unfold gets at 1.
  rewrite Hsol1. destruct depth as [|n]; [lia|]. cbn [unique_loop].
  rewrite bind_eq, Hrun2, bind_eq. unfold gets at 1. by rewrite Hsol2.
Qed.

Lemma unique_unsolvable_raises_witness :
  ∃ w', unique dead_end_board 5 (fresh rng_id) = Raised TypeError w' ∧
        solve_calls w' = (solve_calls (fresh rng_id) + 2)%nat.
Proof.
  apply (unique_unsolvable_raises dead_end_board 5 (fresh rng_id));
    [apply grid9_b_spec; reflexivity
    |apply in_range_b_spec; vm_compute; reflexivity
    |apply valid_b_spec; vm_compute; reflexivity
    |apply dead_end_unsolvable
    |lia].
Defined.

(** X7 (depth 0).  With [depth = 0] the comparison loop is empty:
    [unique] answers [True] after its single reference run on every 9x9
    board, also on one with several completions or with none. *)
Theorem unique_depth_zero board w :
  grid9 board →
  ∃ w', unique board 0 w = Done true w' ∧
        solve_calls w' = S (solve_calls w).
Proof.
  intros Hg. destruct (init_solve_Done board w Hg) as (w1 & Hrun & Hc & _).
  exists w1. split; [|done]. unfold unique. by rewrite bind_eq, Hrun.
Qed.

Lemma unique_depth_zero_witness :
  ∃ w', unique dead_end_board 0 (fresh rng_id) = Done true w' ∧
        solve_calls w' = S (solve_calls (fresh rng_id)).
Proof.
  apply (unique_depth_zero dead_end_board (fresh rng_id)), grid9_b_spec.
  reflexivity.
Defined.

(** ** The solver on a board with fewer than nine rows *)

Lemma for_return_Err {A R : Type} (body : A → result (option R)) l e :
  for_return body l = Err e → ∃ a, a ∈ l ∧ body a = Err e.
Proof.
  induction l as [|a l IH]; simpl; [done|]. rewrite result_bind_eq.
  destruct (body a) as [[r|]|e'] eqn:E; [done| |].
  - intros (b & Hb & He)%IH. exists b. split; [by apply list_elem_of_further|done].
  - intros [= ->]. exists a. split; [apply list_elem_of_here|done].
Qed.

Lemma get_cell_Err board y x e : get_cell board y x = Err e → e = IndexError.
Proof.
  unfold get_cell. destruct (board !! y) as [row|]; [|by intros [= <-]].
  destruct (row !! x); [done|by intros [= <-]].
Qed.

(** The validator fails with [IndexError] only. *)
Lemma can_place_Err y x value board e :
  can_place y x value board = Err e → e = IndexError.
Proof.
  unfold can_place. rewrite result_bind_eq.
  destruct (for_return _ (seq 0 9)) as [[b|]|e1] eqn:E1; [done| |].
  - rewrite result_bind_eq.
    destruct (for_return _ (seq 0 3)) as [[b|]|e2] eqn:E2; [done..|].
    intros [= <-]. apply for_return_Err in E2 as (i & _ & E2).
    apply for_return_Err in E2 as (j & _ & E2). rewrite result_bind_eq in E2.
    destruct (get_cell board _ _) as [c|e3] eqn:E3; [by case_decide|].
    injection E2 as <-. by eapply get_cell_Err.
  - intros [= <-]. apply for_return_Err in E1 as (i & _ & E1).
    rewrite result_bind_eq in E1.
    destruct (get_cell board y i) as [a|e3] eqn:E3.
    + case_decide; [done|]. rewrite result_bind_eq in E1.
      destruct (get_cell board i x) as [b|e4] eqn:E4; [by case_decide|].
      injection E1 as <-. by eapply get_cell_Err.
    + injection E1 as <-. by eapply get_cell_Err.
Qed.

(** The validator accepts a value only after reading row 8. *)
Lemma can_place_true_rows y x value board :
  can_place y x value board = Ok true → (9 ≤ length board)%nat.
Proof.
  unfold can_place. rewrite result_bind_eq.
  destruct (for_return _ (seq 0 9)) as [[b|]|e1] eqn:E1; [| |done].
  - intros [= ->]. apply for_return_Some in E1 as (i & _ & E1).
    rewrite result_bind_eq in E1.
    destruct (get_cell board y i) as [a|]; [|done].
    case_decide; [done|]. rewrite result_bind_eq in E1.
    destruct (get_cell board i x) as [c|]; [|done]. by case_decide.
  - intros _. pose proof (proj1 (for_return_None _ _) E1 8%nat) as H8.
    specialize (H8 ltac:(apply elem_of_seq; lia)). cbv beta in H8.
    rewrite result_bind_eq in H8.
    destruct (get_cell board y 8) as [a|]; [|done].
    case_decide; [done|]. rewrite result_bind_eq in H8.
    destruct (get_cell board 8 x) as [c|] eqn:E8; [|done].
    apply get_cell_Ok in E8 as (row & Hrow & _).
    apply lookup_lt_Some in Hrow. lia.
Qed.

Lemma try_numbers_no_place rec k y x numbers sudoku w :
  (∀ v, can_place y x v sudoku ≠ Ok true) →
  (length numbers ≤ k)%nat → solution w = None →
  match try_numbers rec k y x numbers sudoku w with
  | Done _ w' => solution w' = None
  | Raised e _ => e = IndexError
  | OutOfFuel => False
  end.
Proof.
  intros Hcp. revert numbers w. induction k as [|k IH]; intros numbers w Hk Hsol.
  { destruct numbers; [done|simpl in Hk; lia]. }
  destruct (decide (numbers = [])) as [->|Hne]; [done|].
  rewrite try_numbers_unfold by done.
  destruct (randrange_Done (length numbers) w) as (i & Hi & Hrand).
  { by destruct numbers. }
  rewrite bind_eq, Hrand.
  destruct (list_pop_Ok numbers i Hi) as (num & Hnum & Hpop).
  rewrite bind_eq. unfold lift at 1. rewrite Hpop.
  rewrite bind_eq. unfold gets at 1. cbn [solution with_rng]. rewrite Hsol.
  rewrite bind_eq. unfold lift at 1.
  destruct (can_place y x num sudoku) as [[|]|e] eqn:Ecp.
  - by destruct (Hcp num).
  - apply IH; [|done]. rewrite length_delete by eauto. lia.
  - by eapply can_place_Err.
Qed.

(** X8 (boards with fewer than nine rows).  On a board with fewer than
    nine rows that has an empty cell, [solve] never places a value: the
    call ends without a solution, either by returning with
    [Solver.solution] at [None] or by the [IndexError] of the validator
    reading past the board. *)
Theorem solve_short_board board w :
  (length board < 9)%nat → ¬ full board →
  (∃ w', init_solve board false w = Done () w' ∧ solution w' = None) ∨
  (∃ w', init_solve board false w = Raised IndexError w').
Proof.
  intros Hlen Hnf. rewrite init_solve_eq, solve_unfold.
  destruct (find_zero (ndenumerate board)) as [[y x]|] eqn:Hfz.
  2:{ by destruct Hnf; apply find_zero_full. }
  match goal with
  | |- context [try_numbers ?r ?k y x ?n board ?w0] =>
      pose proof (try_numbers_no_place r k y x n board w0) as H
  end.
  destruct (try_numbers _ _ _ _ _ _ _) as [[] w'|e w'|].
  - left. exists w'. split; [done|]. apply H; [|done..].
    intros v Hv%can_place_true_rows. lia.
  - right. exists w'. f_equal. apply H; [|done..].
    intros v Hv%can_place_true_rows. lia.
  - destruct H; [|done..]. intros v Hv%can_place_true_rows. lia.
Qed.

Lemma solve_short_board_witness :
  (∃ w', init_solve [[0; 1; 2]; [3; 4; 5]; [6; 7; 8]] false (fresh rng_id)
         = Done () w' ∧ solution w' = None) ∨
  (∃ w', init_solve [[0; 1; 2]; [3; 4; 5]; [6; 7; 8]] false (fresh rng_id)
         = Raised IndexError w').
Proof.
  apply (solve_short_board [[0; 1; 2]; [3; 4; 5]; [6; 7; 8]] (fresh rng_id));
    [simpl; lia|].
  intros Hf. by destruct (Hf 0%nat 0%nat 0 eq_refl).
Defined.

(** ** The generator: recursion depth and origin of the puzzle *)

Lemma blanked_facts board s :
  grid9 board → solvable board → blanked board s →
  grid9 s ∧ solvable s ∧ S (count_nonzero s) = count_nonzero board ∧
  (∀ y x v, get_cell s y x = Ok v → v ≠ 0 → get_cell board y x = Ok v).
Proof.
  intros Hg Hs (y & x & n & Hget & Hn & Hset). split_and!.
  - by eapply set_cell_grid9.
  - by eapply solvable_clear.
  - by eapply count_nonzero_clear.
  - intros y' x' v. rewrite (get_set_cell _ _ _ _ _ _ _ Hset).
    case_decide; [by intros [= <-]|done].
Qed.

(** On a solvable 9x9 board the removal loop returns, and a grid it
    returns was handed up by a recursive call on the board with one clue
    emptied, made under the same clue target; it is enough that the
    recursive calls of that kind return. *)
Lemma while_indices_returns rec k depth indices sudoku excluded_nums w :
  grid9 sudoku → solvable sudoku →
  (∀ c, c ∈ indices → c ∈ nonzero_coords sudoku) →
  (length indices ≤ k)%nat →
  (∀ s e, preserves same_clues (rec s e)) →
  (∀ s e w1, blanked sudoku s → clues w1 = clues w →
             ∃ r w2, rec s e w1 = Done r w2) →
  ∃ r w', while_indices rec k depth indices sudoku excluded_nums w = Done r w' ∧
          ∀ g, r = Some g →
               ∃ s e w1, blanked sudoku s ∧ clues w1 = clues w ∧
                         rec s e w1 = Done (Some g) w'.
Proof.
  intros Hg Hsolv Hsub Hk Hpres Hrec.
  assert (Hgen : ∀ indices excluded_nums w0,
    clues w0 = clues w →
    (∀ c, c ∈ indices → c ∈ nonzero_coords sudoku) →
    (length indices ≤ k)%nat →
    ∃ r w', while_indices rec k depth indices sudoku excluded_nums w0
            = Done r w' ∧
      ∀ g, r = Some g →
           ∃ s e w1, blanked sudoku s ∧ clues w1 = clues w ∧
                     rec s e w1 = Done (Some g) w');
    [|by apply Hgen].
  clear indices excluded_nums Hsub Hk.
  induction k as [|k IH]; intros indices excluded_nums w0 Hw0 Hsub Hk.
  { destruct indices; [by eexists _, _|simpl in Hk; lia]. }
  destruct (decide (indices = [])) as [->|Hne]; [by eexists _, _|].
  rewrite while_indices_unfold by done.
  destruct (randrange_Done (length indices) w0) as (i & Hi & Hrand).
  { by destruct indices. }
  rewrite bind_eq, Hrand. set (w1 := with_rng _ w0).
  destruct (list_pop_Ok indices i Hi) as (c0 & Hc0 & Hpop).
  rewrite bind_eq. unfold lift at 1. rewrite Hpop.
  assert (Hlen : S (length (delete i indices)) = length indices).
  { rewrite length_delete by eauto. lia. }
  destruct (skip_excluded_Done (length (delete i indices)) c0
              (delete i indices) excluded_nums w1)
    as ([y x] & indices' & w2 & Hskip & Hc' & Hsub' & Hl'); [lia|].
  rewrite bind_eq, Hskip.
  assert (Hcl2 : clues w2 = clues w).
  { pose proof (preserves_Done _ _ _ _ _
                  (same_clues_skip_excluded _ _ _ _) Hskip) as H.
    unfold same_clues in H. by rewrite H. }
  assert (Hsub2 : ∀ c, c ∈ indices' → c ∈ nonzero_coords sudoku).
  { intros c Hc. by eapply Hsub, list_elem_of_delete_inv, Hsub'. }
  case_bool_decide as Hrest; [|apply IH; [done|done|lia]].
  assert (Hyx : (y, x) ∈ nonzero_coords sudoku).
  { apply Hsub. destruct Hc' as [->|Hin].
    - by eapply list_elem_of_lookup_2.
    - by eapply list_elem_of_delete_inv. }
  apply elem_of_nonzero_coords in Hyx as (n & Hget & Hn).
  destruct (get_cell_lt _ _ _ _ Hg Hget) as [Hy Hx].
  destruct (grid9_set sudoku y x 0 Hg Hy Hx) as [s0 Hs0].
  assert (Hbl : blanked sudoku s0) by (by exists y, x, n).
  destruct (blanked_facts _ _ Hg Hsolv Hbl) as (Hg0 & Hsolv0 & _).
  rewrite bind_eq. unfold lift at 1. rewrite Hget.
  rewrite bind_eq. unfold lift at 1. rewrite Hs0. rewrite bind_eq.
  destruct (unique_Done s0 depth w2 Hg0 Hsolv0) as (u & w3 & Hu).
  pose proof (preserves_Done _ _ _ _ _ (same_clues_unique _ _) Hu) as Hcl3.
  unfold same_clues in Hcl3. rewrite Hu, bind_eq.
  assert (∃ nl w4, (if u then rec s0 excluded_nums else mret None) w3
                   = Done nl w4 ∧ clues w4 = clues w ∧
                   (∀ g, nl = Some g → rec s0 excluded_nums w3 = Done (Some g) w4))
    as (nl & w4 & -> & Hcl4 & Hnl).
  { destruct u.
    - destruct (Hrec s0 excluded_nums w3 Hbl ltac:(congruence)) as (r & w4 & Hr).
      pose proof (preserves_Done _ _ _ _ _ (Hpres _ _) Hr) as Hcl4.
      unfold same_clues in Hcl4. exists r, w4.
      split_and!; [done|congruence|]. by intros g ->.
    - exists None, w3. split_and!; [done|congruence|done]. }
  destruct nl as [g|].
  { exists (Some g), w4. split; [done|]. intros g' [= <-].
    exists s0, excluded_nums, w3. split_and!; [done|congruence|by apply Hnl]. }
  rewrite bind_eq. unfold gets at 1. case_decide; [by eexists _, _|].
  rewrite bind_eq. unfold lift at 1.
  rewrite (set_set_cell _ _ _ _ _ _ Hs0), (set_cell_id _ _ _ _ Hget).
  apply IH; [done|done|lia].
Qed.

(** On a solvable 9x9 board [remove_numbers] returns within
    [filled - target] nested recursive calls, and a grid it returns is
    9x9 and takes each of its clues from the board. *)
Lemma remove_numbers_returns level board excluded w :
  grid9 board → solvable board →
  Z.of_nat (count_nonzero board) - clues w ≤ Z.of_nat level →
  ∃ r w', remove_numbers level board excluded w = Done r w' ∧
          ∀ g, r = Some g →
               grid9 g ∧
               ∀ y x v, get_cell g y x = Ok v → v ≠ 0 →
                        get_cell board y x = Ok v.
Proof.
  revert board excluded w. induction level as [level IH] using lt_wf_ind.
  intros board excluded w Hg Hs Hl. rewrite remove_numbers_unfold.
  rewrite bind_eq. unfold gets at 1. case_decide as Hgt.
  2:{ exists (Some board), w. split; [done|]. by intros g [= <-]. }
  rewrite bind_eq. unfold gets at 1.
  match goal with
  | |- ∃ r w', while_indices ?rc ?k ?d ?i board ?e ?w0 = _ ∧ _ =>
      destruct (while_indices_returns rc k d i board e w0 Hg Hs)
        as (r & w' & Hrun & Hfrom)
  end.
  - done.
  - done.
  - intros s e. destruct level; [done|apply same_clues_remove_numbers].
  - intros s e w1 Hbl Hcl.
    destruct (blanked_facts _ _ Hg Hs Hbl) as (Hgs & Hss & Hcount & _).
    destruct level as [|l]; [lia|].
    destruct (IH l ltac:(lia) s e w1 Hgs Hss ltac:(lia)) as (r & w2 & Hr & _).
    eauto.
  - exists r, w'. split; [done|]. intros g ->.
    destruct (Hfrom g eq_refl) as (s & e & w1 & Hbl & Hcl & Hrec).
    destruct (blanked_facts _ _ Hg Hs Hbl) as (Hgs & Hss & Hcount & Hsub).
    destruct level as [|l]; [done|].
    destruct (IH l ltac:(lia) s e w1 Hgs Hss ltac:(lia)) as (r & w2 & Hr & Hprop).
    rewrite Hrec in Hr. injection Hr as <- <-.
    destruct (Hprop g eq_refl) as [Hgg Hsubg]. split; [done|].
    intros y x v Hv Hnz. apply Hsub; [|done]. by apply Hsubg.
Qed.

(** X9 (depth of the removal recursion).  On a solvable 9x9 board
    [remove_numbers] returns (a grid or [None], no exception) with at
    most [filled - target] nested recursive calls below the initial
    call, [filled] being the number of clues on the board: allowed that
    many levels, it never runs into the limit. *)
Theorem remove_numbers_depth board excluded w :
  grid9 board → solvable board →
  ∃ r w',
    remove_numbers (Z.to_nat (Z.of_nat (count_nonzero board) - clues w))
      board excluded w = Done r w'.
Proof.
  intros Hg Hs.
  destruct (remove_numbers_returns
              (Z.to_nat (Z.of_nat (count_nonzero board) - clues w))
              board excluded w Hg Hs ltac:(lia)) as (r & w' & Hrun & _).
  eauto.
Qed.

Lemma remove_numbers_depth_witness :
  ∃ r w',
    remove_numbers
      (Z.to_nat (Z.of_nat (count_nonzero board41)
                 - clues (with_clues 38 (fresh rng_id))))
      board41 [] (with_clues 38 (fresh rng_id)) = Done r w'.
Proof.
  apply (remove_numbers_depth board41 [] (with_clues 38 (fresh rng_id)));
    [apply grid9_b_spec; reflexivity
    |exists solved_grid; apply completion_b_spec; vm_compute; reflexivity].
Defined.

(** X10 (origin of the puzzle).  For every difficulty in {easy, medium,
    hard}: the puzzle [generate] stores is 9x9 and every clue of it is
    a cell of one full valid grid; so the puzzle is valid, has cells in
    0..9 and is solvable. *)
Theorem generate_puzzle_solvable difficulty w w' :
  difficulty = "easy" ∨ difficulty = "medium" ∨ difficulty = "hard" →
  generate difficulty w = Done () w' →
  ∃ g sol, puzzle w' = Some g ∧ grid9 g ∧ completion g sol ∧
           valid g ∧ in_range g.
Proof.
  intros Hd. unfold generate.
  destruct (choose_clues_Done difficulty w) as (w1 & Hch & He & Hm & Hh & _).
  rewrite bind_eq, Hch.
  assert (Hcl : 0 ≤ clues w1).
  { destruct Hd as [E|[E|E]];
      [specialize (He E)|specialize (Hm E)|specialize (Hh E)]; lia. }
  destruct (generate_board_eq w1) as (w2 & seed & Hcl2 & Hgs & Hss & H81 & ->).
  destruct (remove_numbers_returns (count_nonzero seed) seed [] w2 Hgs Hss
              ltac:(lia)) as (r & w3 & Hrem & Hprop).
  rewrite Hrem. destruct r as [g|]; [|done]. intros [= <-].
  destruct (Hprop g eq_refl) as [Hgg Hsub]. destruct Hss as [sol Hsol].
  assert (Hc : completion g sol).
  { destruct Hsol as (? & ? & ? & ? & Hext). split_and!; [done..|].
    intros y x v Hv Hnz. apply Hext; [|done]. by apply Hsub. }
  exists g, sol. split_and!; [done..| |].
  - apply solvable_valid. by exists sol.
  - apply solvable_in_range; [done|by exists sol].
Qed.

Lemma generate_puzzle_solvable_witness :
  ∃ w' g sol, generate "easy" (fresh rng0) = Done () w' ∧
              puzzle w' = Some g ∧ completion g sol.
Proof.
  eexists.
  assert (Hrun : generate "easy" (fresh rng0) = Done () _)
    by (vm_compute; reflexivity).
  destruct (generate_puzzle_solvable "easy" (fresh rng0) _ ltac:(by left) Hrun)
    as (g & sol & Hp & _ & Hc & _).
  exists g, sol. split; [exact Hrun|]. split; [exact Hp|exact Hc].
Defined.

(** * Properties of the window *)

Lemma same_puzzle_init_solve board drawing :
  preserves (λ w w', puzzle w' = puzzle w) (init_solve board drawing).
Proof. apply preserves_init_solve; [done|congruence|done..]. Qed.

(** With a puzzle in place the redraw of [init_solve] cannot fail: the
    call behaves as without drawing. *)
Lemma init_solve_drawing board w p :
  puzzle w = Some p → init_solve board true w = init_solve board false w.
Proof.
  intros Hp. rewrite init_solve_eq.
  assert (Heq : init_solve board true w =
    match solve (cells board) board (with_solution None (count_call w)) with
    | Done _ w' => draw_puzzle (solution w') (puzzle w') w'
    | Raised e w' => Raised e w'
    | OutOfFuel => OutOfFuel
    end) by reflexivity.
  rewrite Heq. clear Heq.
  pose proof (preserves_solve (λ w w', puzzle w' = puzzle w)
                ltac:(done) ltac:(congruence) ltac:(done) ltac:(done)
                (cells board) board (with_solution None (count_call w))) as Hf.
  destruct (solve _ board _) as [[] w'|e w'|]; [|done..].
  simpl in Hf. rewrite Hf, Hp. unfold draw_puzzle. by destruct (solution w').
Qed.

Lemma redraw_puzzle_Some a p :
  puzzle (core a) = Some p → redraw_puzzle a = UDone a.
Proof.
  intros Hp. unfold redraw_puzzle, run_core. rewrite bind_eq. unfold gets.
  rewrite Hp. by destruct a.
Qed.

(** X11 (the Solve button).  With no popup open and a 9x9 puzzle on the
    board, pressing Solve never raises: it clears the selection, leaves
    the puzzle and the clue target as they are, and records in
    [Solver.solution] a 9x9 grid without empty cell that keeps the
    givens, or [None]; for a valid puzzle with cells in 0..9 it records
    a grid exactly when the puzzle is solvable. *)
Theorem solve_pressed_spec a p :
  popup a = false → puzzle (core a) = Some p → grid9 p →
  ∃ w', solve_pressed a = UDone (with_core w' (with_selected [] a)) ∧
        puzzle w' = Some p ∧ clues w' = clues (core a) ∧
        (∀ g, solution w' = Some g → grid9 g ∧ full g ∧ extends p g) ∧
        (valid p → in_range p → (is_Some (solution w') ↔ solvable p)).
Proof.
  intros Hpop Hp Hg. unfold solve_pressed. rewrite Hpop. cbn [with_selected core].
  rewrite Hp. unfold run_core. cbn [with_selected core].
  rewrite (init_solve_drawing p (core a) p Hp).
  destruct (init_solve_Done p (core a) Hg) as (w' & Hrun & _ & Hcl & Hfill & Hsome).
  pose proof (preserves_Done _ _ _ _ _ (same_puzzle_init_solve p false) Hrun) as Hpz.
  simpl in Hpz. rewrite Hrun. exists w'. split_and!; [done|congruence|done| |].
  - intros g Hsol. destruct (Hfill g Hsol) as (? & ? & ? & _). done.
  - intros Hv Hr. split; [|done]. intros [g Hsol]. exists g.
    apply filled_from_completion; auto.
Qed.

Lemma solve_pressed_spec_witness :
  ∃ w', solve_pressed
          (with_core (with_puzzle (Some example_puzzle) (fresh rng_id))
             (fresh_app rng_id))
        = UDone (with_core w' (with_selected []
             (with_core (with_puzzle (Some example_puzzle) (fresh rng_id))
                (fresh_app rng_id)))) ∧
        puzzle w' = Some example_puzzle ∧
        clues w' = 0 ∧
        (∀ g, solution w' = Some g →
              grid9 g ∧ full g ∧ extends example_puzzle g) ∧
        (valid example_puzzle → in_range example_puzzle →
         (is_Some (solution w') ↔ solvable example_puzzle)).
Proof.
  apply (solve_pressed_spec
           (with_core (with_puzzle (Some example_puzzle) (fresh rng_id))
              (fresh_app rng_id)) example_puzzle);
    [reflexivity|reflexivity|apply grid9_b_spec; reflexivity].
Defined.

Lemma py_int_range c d : py_int c = Ok d → 0 ≤ d ≤ 9.
Proof.
  unfold py_int. destruct c as [c|]; [|done].
  case_decide; [|done]. intros [= <-]. lia.
Qed.

Lemma np_index_in_range len i :
  0 ≤ i < Z.of_nat len → np_index len i = Ok (Z.to_nat i).
Proof. intros H. unfold np_index. by rewrite decide_True. Qed.

(** X12 (typing into the selected cell).  With the cell [[x; y]]
    selected (column [x], row [y], both in 0..8) and a 9x9 puzzle on the
    board, a digit key writes its digit, and BackSpace writes 0, into
    row [y], column [x] of the puzzle; every other cell, the 9x9 shape
    and the range 0..9 are kept.  Nothing checks the sudoku rules. *)
Theorem enter_value_spec a ev x y p d :
  selected_position a = [x; y] → 0 ≤ x ≤ 8 → 0 ≤ y ≤ 8 →
  puzzle (core a) = Some p → grid9 p →
  (keysym ev = "BackSpace" ∧ d = 0) ∨
  (keysym ev ≠ "BackSpace" ∧ py_int (char ev) = Ok d) →
  ∃ p', enter_value ev a
          = UDone (with_core (with_puzzle (Some p') (core a)) a) ∧
        grid9 p' ∧
        get_cell p' (Z.to_nat y) (Z.to_nat x) = Ok d ∧
        (∀ y' x', (y', x') ≠ (Z.to_nat y, Z.to_nat x) →
                  get_cell p' y' x' = get_cell p y' x') ∧
        (in_range p → in_range p').
Proof.
  intros Hsp Hx Hy Hp Hg Hkey.
  destruct (grid9_set p (Z.to_nat y) (Z.to_nat x) d Hg) as [p' Hset]; [lia..|].
  assert (Hd : 0 ≤ d ≤ 9).
  { destruct Hkey as [[_ ->]|[_ Hd]]; [lia|by eapply py_int_range]. }
  assert (Hval : (if decide (keysym ev = "BackSpace") then Ok 0
                  else py_int (char ev)) = Ok d).
  { destruct Hkey as [[-> ->]|[Hne Hd']]; [done|by rewrite decide_False]. }
  assert (Hitem : puzzle_setitem (Some p) y x d = Ok p').
  { unfold puzzle_setitem. pose proof Hg as [Hlen _].
    rewrite np_index_in_range by lia. rewrite result_bind_eq.
    destruct (lookup_lt_is_Some_2 p (Z.to_nat y)) as [row Hrow]; [lia|].
    rewrite Hrow, result_bind_eq.
    rewrite np_index_in_range by (rewrite (grid9_row _ _ _ Hg Hrow); lia).
    by rewrite result_bind_eq. }
  exists p'. split_and!.
  - unfold enter_value. rewrite Hsp, Hval, Hp. unfold ui_lift at 1.
    unfold list_item. cbn [lookup list_lookup ui_lift]. rewrite Hitem.
    by apply (redraw_puzzle_Some _ p').
  - by eapply set_cell_grid9.
  - by eapply get_set_cell_eq.
  - intros y' x' Hne. by eapply get_set_cell_ne.
  - intros Hr. by eapply in_range_set.
Qed.

Lemma enter_value_spec_witness :
  ∃ p', enter_value {| keysym := "7"; char := Some (Ascii.ascii_of_nat 55) |}
          (with_selected [2; 5] (fresh_app rng_id))
        = UDone (with_core (with_puzzle (Some p') (fresh rng_id))
                   (with_selected [2; 5] (fresh_app rng_id))) ∧
        grid9 p' ∧
        get_cell p' 5 2 = Ok 7 ∧
        (∀ y' x', (y', x') ≠ (5, 2)%nat →
                  get_cell p' y' x' = get_cell zeros99 y' x') ∧
        (in_range zeros99 → in_range p').
Proof.
  apply (enter_value_spec (with_selected [2; 5] (fresh_app rng_id))
           {| keysym := "7"; char := Some (Ascii.ascii_of_nat 55) |} 2 5 zeros99 7);
    [reflexivity|lia|lia|reflexivity|apply grid9_b_spec; reflexivity|].
  right. split; [done|reflexivity].
Defined.

(** X13 (moving the selection).  With the cell [[x; y]] selected, both
    coordinates in 0..8, and a puzzle on the board, an arrow key moves
    the selection by one cell and stops at the border: Left and Right
    change the column, Up and Down the row, and the selection never
    leaves the board.  Nothing else changes. *)
Theorem key_press_arrow a ev x y p :
  selected_position a = [x; y] → 0 ≤ x ≤ 8 → 0 ≤ y ≤ 8 →
  puzzle (core a) = Some p →
  keysym ev ∈ ["Left"; "Right"; "Up"; "Down"] →
  ∃ x' y', key_press ev a = UDone (with_selected [x'; y'] a) ∧
           0 ≤ x' ≤ 8 ∧ 0 ≤ y' ≤ 8 ∧
           (keysym ev = "Left" → x' = Z.max 0 (x - 1) ∧ y' = y) ∧
           (keysym ev = "Right" → x' = Z.min 8 (x + 1) ∧ y' = y) ∧
           (keysym ev = "Up" → x' = x ∧ y' = Z.max 0 (y - 1)) ∧
           (keysym ev = "Down" → x' = x ∧ y' = Z.min 8 (y + 1)).
Proof.
  intros Hsp Hx Hy Hp Hkey. destruct a as [w sp pp]. destruct ev as [ks ch].
  simpl in *. subst sp.
  assert (Hdraw : ∀ x' y',
    draw_selected {| core := w; selected_position := [x'; y']; popup := pp |}
    = UDone {| core := w; selected_position := [x'; y']; popup := pp |}).
  { intros x' y'. unfold draw_selected, list_item. cbn [lookup list_lookup ui_lift
      selected_position]. by apply (redraw_puzzle_Some _ p). }
  unfold key_press, move_selection, with_selected. cbn [keysym selected_position
    core popup].
  repeat (apply elem_of_cons in Hkey as [->|Hkey]);
    [| | | |by apply elem_of_nil in Hkey];
    simpl; case_bool_decide; cbn [ui_then]; rewrite Hdraw;
    eexists _, _; (split; [reflexivity|]);
    split_and!; try lia; try done; intros _; lia.
Qed.

Lemma key_press_arrow_witness :
  ∃ x' y', key_press {| keysym := "Left"; char := None |}
             (with_selected [0; 4] (fresh_app rng_id))
           = UDone (with_selected [x'; y']
                      (with_selected [0; 4] (fresh_app rng_id))) ∧
           0 ≤ x' ≤ 8 ∧ 0 ≤ y' ≤ 8 ∧
           ("Left" = "Left" → x' = Z.max 0 (0 - 1) ∧ y' = 4) ∧
           ("Left" = "Right" → x' = Z.min 8 (0 + 1) ∧ y' = 4) ∧
           ("Left" = "Up" → x' = 0 ∧ y' = Z.max 0 (4 - 1)) ∧
           ("Left" = "Down" → x' = 0 ∧ y' = Z.min 8 (4 + 1)).
Proof.
  apply (key_press_arrow (with_selected [0; 4] (fresh_app rng_id))
           {| keysym := "Left"; char := None |} 0 4 zeros99);
    [reflexivity|lia|lia|reflexivity|apply list_elem_of_here].
Defined.

(** X14 (the difficulty buttons).  Each of the three buttons of the
    popup closes the popup and runs [generate] with its own, recognized
    difficulty.  The call ends in one of two ways: it returns with a 9x9
    puzzle on the board whose number of clues is the drawn target,
    inside the tier's range; or the removal found no puzzle, [None] is
    stored as the puzzle and the redraw raises [TypeError]. *)
Theorem difficulty_pressed_spec d a :
  d ∈ popup_buttons →
  (∃ w' g, difficulty_pressed d a = UDone (with_core w' (on_delete a)) ∧
           puzzle w' = Some g ∧ grid9 g ∧
           Z.of_nat (count_nonzero g) = clues w' ∧
           (d = "easy" → 40 ≤ clues w' ≤ 50) ∧
           (d = "medium" → 32 ≤ clues w' ≤ 40) ∧
           (d = "hard" → 25 ≤ clues w' ≤ 32)) ∨
  (∃ w', difficulty_pressed d a = URaised TypeError (with_core w' (on_delete a)) ∧
         puzzle w' = None).
Proof.
  intros Hd.
  assert (Hrec : d = "easy" ∨ d = "medium" ∨ d = "hard").
  { unfold popup_buttons in Hd.
    repeat (apply elem_of_cons in Hd as [->|Hd]); auto.
    by apply elem_of_nil in Hd. }
  unfold difficulty_pressed, run_core. cbn [on_delete with_popup core].
  unfold generate.
  destruct (choose_clues_Done d (core a)) as (w1 & Hch & He & Hm & Hh & _).
  rewrite bind_eq, Hch.
  assert (Hcl : clues w1 ≤ 81).
  { destruct Hrec as [E|[E|E]];
      [specialize (He E)|specialize (Hm E)|specialize (Hh E)]; lia. }
  pose proof (generate_board_cases w1 Hcl) as Hc.
  destruct (generate_board w1) as [[] w'|e w'|]; [| |done].
  - left. destruct Hc as (g & Hp & Hg & Hcount & Hsame). exists w', g.
    rewrite Hsame. split_and!; [done..|lia|done|done|done].
  - right. destruct Hc as (-> & Hp & _). by exists w'.
Qed.

Lemma difficulty_pressed_spec_witness :
  (∃ w' g, difficulty_pressed "hard" (fresh_app rng_id)
           = UDone (with_core w' (on_delete (fresh_app rng_id))) ∧
           puzzle w' = Some g ∧ grid9 g ∧
           Z.of_nat (count_nonzero g) = clues w' ∧
           ("hard" = "easy" → 40 ≤ clues w' ≤ 50) ∧
           ("hard" = "medium" → 32 ≤ clues w' ≤ 40) ∧
           ("hard" = "hard" → 25 ≤ clues w' ≤ 32)) ∨
  (∃ w', difficulty_pressed "hard" (fresh_app rng_id)
         = URaised TypeError (with_core w' (on_delete (fresh_app rng_id))) ∧
         puzzle w' = None).
Proof.
  apply (difficulty_pressed_spec "hard" (fresh_app rng_id)).
  unfold popup_buttons. do 2 apply list_elem_of_further. apply list_elem_of_here.
Defined.

(** * Two more properties of the engine *)

(** X15 (validator on an occupied cell).  On a 9x9 board, asking whether
    the value a cell already holds can be placed in that cell is
    answered [False]: the row scan meets the cell itself. *)
Theorem can_place_occupied board y x value :
  grid9 board → (y < 9)%nat → (x < 9)%nat →
  get_cell board y x = Ok value →
  can_place y x value board = Ok false.
Proof.
  intros Hg Hy Hx Hget.
  destruct (can_place_spec board y x value Hg Hy Hx) as (b & Hb & Hiff).
  rewrite Hb. destruct b; [|done].
  destruct (proj1 Hiff eq_refl) as [Hrow _]. destruct Hrow. by exists x.
Qed.

Lemma can_place_occupied_witness : can_place 0 0 5 solved_grid = Ok false.
Proof.
  apply (can_place_occupied solved_grid 0 0 5);
    [apply grid9_b_spec; reflexivity|lia|lia|reflexivity].
Defined.

(** X16 (what the engine leaves alone).  Whatever their outcome, a
    return or an exception, [unique] and [remove_numbers] change
    neither the clue target nor the puzzle on the board: they work on
    the random source and on [Solver.solution] only. *)
Theorem engine_frame board depth level excluded :
  preserves (λ w w', clues w' = clues w ∧ puzzle w' = puzzle w)
    (unique board depth) ∧
  preserves (λ w w', clues w' = clues w ∧ puzzle w' = puzzle w)
    (remove_numbers level board excluded).
Proof.
  split; [apply preserves_unique|apply preserves_remove_numbers];
    try done; intros w1 w2 w3 [-> ->] [-> ->]; done.
Qed.
